(** * Incident create route: a shallow embedding of
      [src/frontend/src/app/api/incidents/route.ts]

    The handler [POST] talks to four collaborators: the identity provider
    ([auth]), the request body reader ([req.json]), the durable store ([db],
    a Prisma client) and the real-time transport ([pusherServer]).  The
    embedding keeps the handler's control flow as it is written and threads
    the store, a log of collaborator calls and the [try]/[catch] through a
    small state-and-exception monad. *)

From Stdlib Require Import ZArith Ascii String.
From stdpp Require Import base option list strings gmap fin_maps fin_sets sorting.

Set Warnings "-register-all,-clear-no-such-hyp".

Local Open Scope string_scope.
Local Open Scope list_scope.

(** ** Parsed request bodies *)

(** The value [req.json()] resolves to.  A string is the sequence of its
    code units, here those below 256, so [String.length] is the [length] of
    the JavaScript string.  The schema rejects a number wherever it meets
    one, whatever its value, so numbers are kept as integers.  An object is
    the list of its own properties; a property read returns the first
    binding of the key. *)
Inductive json : Type :=
| JNull
| JBool (b : bool)
| JNum (n : Z)
| JStr (s : string)
| JArr (items : list json)
| JObj (fields : list (string * json)).

(** [data[key]]: [None] stands for [undefined]. *)
Fixpoint get_prop (fields : list (string * json)) (key : string) : option json :=
  match fields with
  | [] => None
  | (k, v) :: rest => if String.eqb k key then Some v else get_prop rest key
  end.

(** ** The zod fragment used by the schema *)

Inductive PathSeg : Type :=
| Key (k : string)
| Idx (i : nat).

Inductive IssueCode : Type :=
| invalid_type
| too_small
| too_big
| invalid_enum_value
| invalid_string.

Record ZodIssue : Type := mkIssue {
  issue_code : IssueCode;
  issue_path : list PathSeg
}.

#[global] Instance PathSeg_eq_dec : EqDecision PathSeg.
Proof. solve_decision. Defined.
#[global] Instance IssueCode_eq_dec : EqDecision IssueCode.
Proof. solve_decision. Defined.
#[global] Instance ZodIssue_eq_dec : EqDecision ZodIssue.
Proof. solve_decision. Defined.

(** A schema parses the value found at [path] ([None] is [undefined]); it
    yields the issues it adds to the parse context and the parsed output
    unless the parse was aborted. *)
Definition Schema (A : Type) : Type :=
  list PathSeg -> option json -> list ZodIssue * option A.

Inductive StringCheck : Type :=
| CkMin (n : nat)
| CkMax (n : nat)
| CkCuid.

(** Code units below 256 matched by the regular expression class [\s]. *)
Definition is_space (c : ascii) : bool :=
  let n := nat_of_ascii c in
  (Nat.leb 9 n && Nat.leb n 13) || Nat.eqb n 32 || Nat.eqb n 160.

(** zod's cuid pattern [/^c[^\s-]{8,}$/i]. *)
Definition is_cuid (s : string) : bool :=
  match s with
  | EmptyString => false
  | String c rest =>
      (Ascii.eqb c "c" || Ascii.eqb c "C")
      && Nat.leb 8 (String.length rest)
      && forallb (fun ch => negb (is_space ch || Ascii.eqb ch "-"))
                 (list_ascii_of_string rest)
  end.

Definition run_check (path : list PathSeg) (s : string) (ck : StringCheck)
  : list ZodIssue :=
  match ck with
  | CkMin n => if Nat.ltb (String.length s) n then [mkIssue too_small path] else []
  | CkMax n => if Nat.ltb n (String.length s) then [mkIssue too_big path] else []
  | CkCuid => if is_cuid s then [] else [mkIssue invalid_string path]
  end.

(** [z.string()] followed by its checks: a non-string aborts with one
    [invalid_type] issue, a string runs every check. *)
Definition z_string (checks : list StringCheck) : Schema string :=
  fun path v =>
    match v with
    | Some (JStr s) => (concat (map (run_check path s) checks), Some s)
    | _ => ([mkIssue invalid_type path], None)
    end.

(** [z.enum([...])], with the literals paired with the constructors they
    stand for. *)
Fixpoint enum_lookup {A} (table : list (string * A)) (s : string) : option A :=
  match table with
  | [] => None
  | (k, a) :: rest => if String.eqb k s then Some a else enum_lookup rest s
  end.

Definition z_enum {A} (table : list (string * A)) : Schema A :=
  fun path v =>
    match v with
    | Some (JStr s) =>
        match enum_lookup table s with
        | Some a => ([], Some a)
        | None => ([mkIssue invalid_enum_value path], None)
        end
    | _ => ([mkIssue invalid_type path], None)
    end.

(** Elements of an array are parsed in order, each under its index. *)
Fixpoint parse_items {A} (elem : Schema A) (path : list PathSeg) (i : nat)
    (items : list json) : list ZodIssue * option (list A) :=
  match items with
  | [] => ([], Some [])
  | x :: rest =>
      let '(errs1, v1) := elem (path ++ [Idx i]) (Some x) in
      let '(errs2, v2) := parse_items elem path (S i) rest in
      (errs1 ++ errs2,
       match v1, v2 with
       | Some a, Some l => Some (a :: l)
       | _, _ => None
       end)
  end.

(** [z.array(elem).min(n)]. *)
Definition z_array_min {A} (elem : Schema A) (n : nat) : Schema (list A) :=
  fun path v =>
    match v with
    | Some (JArr items) =>
        let small :=
          if Nat.ltb (length items) n then [mkIssue too_small path] else [] in
        let '(errs, out) := parse_items elem path 0 items in
        (small ++ errs, out)
    | _ => ([mkIssue invalid_type path], None)
    end.

(** [schema.optional().default(d)]: [undefined] is replaced by the default
    before the inner schema runs. *)
Definition z_optional_default {A} (inner : Schema A) (d : json) : Schema A :=
  fun path v =>
    match v with
    | None => inner path (Some d)
    | Some _ => inner path v
    end.

(** ** The incident schema *)

Inductive Status : Type := investigating | identified | monitoring | resolved.
Inductive Impact : Type := minor | major | critical.
Inductive IncidentType : Type := incident | maintenance.

#[global] Instance Status_eq_dec : EqDecision Status.
Proof. solve_decision. Defined.
#[global] Instance Impact_eq_dec : EqDecision Impact.
Proof. solve_decision. Defined.
#[global] Instance IncidentType_eq_dec : EqDecision IncidentType.
Proof. solve_decision. Defined.

Definition status_values : list (string * Status) :=
  [("investigating", investigating); ("identified", identified);
   ("monitoring", monitoring); ("resolved", resolved)].
Definition impact_values : list (string * Impact) :=
  [("minor", minor); ("major", major); ("critical", critical)].
Definition type_values : list (string * IncidentType) :=
  [("incident", incident); ("maintenance", maintenance)].

(** [validation.data] *)
Record Intent : Type := mkIntent {
  i_title : string;
  i_description : string;
  i_status : Status;
  i_impact : Impact;
  i_serviceIds : list string;
  i_organizationId : string;
  i_type : IncidentType
}.

Definition title_schema : Schema string := z_string [CkMin 1; CkMax 100].
Definition description_schema : Schema string := z_string [CkMin 10; CkMax 1000].
Definition status_schema : Schema Status := z_enum status_values.
Definition impact_schema : Schema Impact := z_enum impact_values.
Definition serviceIds_schema : Schema (list string) :=
  z_array_min (z_string [CkCuid]) 1.
Definition organizationId_schema : Schema string := z_string [CkCuid].
Definition type_schema : Schema IncidentType :=
  z_optional_default (z_enum type_values) (JStr "incident").

(** [z.object({...})]: a non-object aborts with one issue at the object's
    own path; otherwise every key of the shape is parsed, in the order the
    shape lists them, and the issues are merged.  Unknown keys are dropped. *)
Definition incidentSchema : Schema Intent :=
  fun path v =>
    match v with
    | Some (JObj fields) =>
        let at_key (A : Type) (s : Schema A) (k : string) :=
          s (path ++ [Key k]) (get_prop fields k) in
        let '(e1, title) := at_key _ title_schema "title" in
        let '(e2, description) := at_key _ description_schema "description" in
        let '(e3, status) := at_key _ status_schema "status" in
        let '(e4, impact) := at_key _ impact_schema "impact" in
        let '(e5, serviceIds) := at_key _ serviceIds_schema "serviceIds" in
        let '(e6, organizationId) :=
          at_key _ organizationId_schema "organizationId" in
        let '(e7, type) := at_key _ type_schema "type" in
        (e1 ++ e2 ++ e3 ++ e4 ++ e5 ++ e6 ++ e7,
         match title, description, status, impact,
               serviceIds, organizationId, type with
         | Some t, Some d, Some s, Some i, Some ids, Some o, Some ty =>
             Some (mkIntent t d s i ids o ty)
         | _, _, _, _, _, _, _ => None
         end)
    | _ => ([mkIssue invalid_type path], None)
    end.

Inductive SafeParseResult (A : Type) : Type :=
| ParseSuccess (data : A)
| ParseFailure (errors : list ZodIssue).
Arguments ParseSuccess {A} data.
Arguments ParseFailure {A} errors.

(** [schema.safeParse(json)]: success exactly when no issue was raised. *)
Definition safeParse {A} (schema : Schema A) (j : json) : SafeParseResult A :=
  match schema [] (Some j) with
  | ([], Some data) => ParseSuccess data
  | (errors, _) => ParseFailure errors
  end.

Definition cuid1 : string := "ckservice0001".
Definition cuid2 : string := "ckservice0002".
Definition cuidO : string := "ckorganiz0001".

Definition good_body : json :=
  JObj [("title", JStr "API down");
        ("description", JStr "Requests to the API time out.");
        ("status", JStr "investigating");
        ("impact", JStr "major");
        ("serviceIds", JArr [JStr cuid1; JStr cuid2]);
        ("organizationId", JStr cuidO)].

Example good_body_parses :
  safeParse incidentSchema good_body
  = ParseSuccess (mkIntent "API down" "Requests to the API time out."
                           investigating major [cuid1; cuid2] cuidO incident).
Proof. reflexivity. Qed.

(** ** The durable store *)

(** Modelled from the spec: the Prisma schema is not among the sources.  The
    tables are keyed by their identity; the columns are those the handler
    writes or filters on, and for a service those section 3 of the
    specification lists. *)
Record OrganizationRow : Type := mkOrganization {
  clerkOrgId : string
}.

Record ServiceRow : Type := mkService {
  s_name : string;
  s_description : option string;
  s_organizationId : string
}.

Record IncidentRow : Type := mkIncident {
  title : string;
  description : string;
  status : Status;
  impact : Impact;
  type : IncidentType;
  organizationId : string;
  startedAt : Z
}.

Record IncidentServiceRow : Type := mkIncidentService {
  incidentId : string;
  serviceId : string
}.

Record Db : Type := mkDb {
  organizations : gmap string OrganizationRow;
  services : gmap string ServiceRow;
  incidents : gmap string IncidentRow;
  incidentServices : list IncidentServiceRow
}.

(** What [findUnique] with [include: { services: { include: { service: true } } }]
    returns: the incident, its association rows, and under each row the
    service record it points to. *)
Record IncidentServiceObj : Type := mkIncidentServiceObj {
  o_incidentId : string;
  o_serviceId : string;
  o_service : option (string * ServiceRow)
}.

Record HydratedIncident : Type := mkHydrated {
  h_id : string;
  h_row : IncidentRow;
  h_services : list IncidentServiceObj
}.

(** ** Effects *)

(** Collaborator calls that can reject. *)
Inductive Op : Type :=
| OpOrganizationFindFirst
| OpServiceCount
| OpIncidentCreate
| OpIncidentServiceCreateMany
| OpIncidentFindUnique
| OpCommit
| OpTrigger.

Inductive Error : Type :=
| SyntaxError
| UniqueConstraintViolation
| Rejected (op : Op).

(** The calls the handler makes, in the order it makes them. *)
Inductive Event : Type :=
| EvOrganizationFindFirst (id clerk : string)
| EvServiceCount (ids : list string) (org : string)
| EvTxBegin
| EvIncidentCreate (id : string)
| EvIncidentServiceCreateMany (rows : list IncidentServiceRow)
| EvIncidentFindUnique (id : string)
| EvTxCommit (committed : Db)
| EvTxRollback
| EvTrigger (channel event : string) (payload : option HydratedIncident)
            (delivered : bool)
| EvConsoleError (tag : string) (e : Error).

(** [db] is the durable state, except between [EvTxBegin] and the end of the
    transaction, where it is the transaction's working copy. *)
Record World : Type := mkWorld {
  db : Db;
  trace : list Event;
  idctr : nat
}.

(** What the surroundings decide: which calls reject, the clock read by
    [new Date()], and the identifiers the store generates. *)
Record Env : Type := mkEnv {
  faults : Op -> bool;
  now : Z;
  idgen : nat -> string
}.

Record Request : Type := mkRequest {
  session_userId : option string;
  session_orgId : option string;
  body : option json
}.

Inductive Body : Type :=
| ErrorBody (error : string)
| InvalidDataBody (error : string) (details : list ZodIssue)
| IncidentBody (result : option HydratedIncident).

Record Response : Type := mkResponse {
  resp_body : Body;
  resp_status : nat
}.

Inductive Outcome (A : Type) : Type :=
| Ok (a : A)
| Throw (e : Error).
Arguments Ok {A} a.
Arguments Throw {A} e.

Definition M (A : Type) : Type := World -> Outcome A * World.

Definition ret {A} (a : A) : M A := fun w => (Ok a, w).

Definition throw {A} (e : Error) : M A := fun w => (Throw e, w).

Definition bind {A B} (c : M A) (k : A -> M B) : M B :=
  fun w =>
    match c w with
    | (Ok a, w') => k a w'
    | (Throw e, w') => (Throw e, w')
    end.

Notation "'let*' x ':=' c 'in' k" := (bind c (fun x => k))
  (at level 10, x name, c at level 100, k at level 200).

(** [try { body } catch (error) { handler }] *)
Definition try_catch {A} (body : M A) (handler : Error -> M A) : M A :=
  fun w =>
    match body w with
    | (Ok a, w') => (Ok a, w')
    | (Throw e, w') => handler e w'
    end.

Definition emit (ev : Event) : M unit :=
  fun w => (Ok tt, mkWorld (db w) (trace w ++ [ev]) (idctr w)).

Definition get_db : M Db := fun w => (Ok (db w), w).

Definition put_db (d : Db) : M unit :=
  fun w => (Ok tt, mkWorld d (trace w) (idctr w)).

Definition fresh_id (gen : nat -> string) : M string :=
  fun w => (Ok (gen (idctr w)), mkWorld (db w) (trace w) (S (idctr w))).

(** A value is falsy when it is [null]/[undefined] or the empty string. *)
Definition truthy (v : option string) : option string :=
  match v with
  | Some s => if String.eqb s "" then None else Some s
  | None => None
  end.

Definition hydrate (d : Db) (id : string) : option HydratedIncident :=
  match incidents d !! id with
  | None => None
  | Some row =>
      Some (mkHydrated id row
        (map (fun r =>
                mkIncidentServiceObj (incidentId r) (serviceId r)
                  (match services d !! serviceId r with
                   | Some s => Some (serviceId r, s)
                   | None => None
                   end))
             (filter (fun r => incidentId r = id) (incidentServices d))))
  end.

Definition service_matches (ids : list string) (org : string)
    (kv : string * ServiceRow) : Prop :=
  kv.1 ∈ ids ∧ s_organizationId kv.2 = org.

#[global] Instance service_matches_dec ids org kv :
  Decision (service_matches ids org kv).
Proof. unfold service_matches. apply _. Defined.

Section Handler.

Variable env : Env.

(** A collaborator call rejects when the surroundings say so. *)
Definition guard (op : Op) : M unit :=
  if faults env op then throw (Rejected op) else ret tt.

(** [req.json()] *)
Definition req_json (req : Request) : M json :=
  match body req with
  | Some j => ret j
  | None => throw SyntaxError
  end.

(** [db.organization.findFirst({ where: { id, clerkOrgId } })] *)
Definition db_organization_findFirst (id clerk : string)
  : M (option OrganizationRow) :=
  let* _ := emit (EvOrganizationFindFirst id clerk) in
  let* _ := guard OpOrganizationFindFirst in
  let* d := get_db in
  ret (match organizations d !! id with
       | Some o => if String.eqb (clerkOrgId o) clerk then Some o else None
       | None => None
       end).

(** [db.service.count({ where: { id: { in: ids }, organizationId } })] *)
Definition db_service_count (ids : list string) (org : string) : M nat :=
  let* _ := emit (EvServiceCount ids org) in
  let* _ := guard OpServiceCount in
  let* d := get_db in
  ret (size (filter (service_matches ids org) (services d))).

(** [tx.incident.create({ data })]: the store generates the identity. *)
Definition tx_incident_create (row : IncidentRow) : M string :=
  let* id := fresh_id (idgen env) in
  let* _ := emit (EvIncidentCreate id) in
  let* _ := guard OpIncidentCreate in
  let* d := get_db in
  match incidents d !! id with
  | Some _ => throw UniqueConstraintViolation
  | None =>
      let* _ := put_db (mkDb (organizations d) (services d)
                             (<[id := row]> (incidents d))
                             (incidentServices d)) in
      ret id
  end.

(** [tx.incidentService.createMany({ data })] *)
Definition tx_incidentService_createMany (rows : list IncidentServiceRow)
  : M unit :=
  let* _ := emit (EvIncidentServiceCreateMany rows) in
  let* _ := guard OpIncidentServiceCreateMany in
  let* d := get_db in
  put_db (mkDb (organizations d) (services d) (incidents d)
               (incidentServices d ++ rows)).

(** [tx.incident.findUnique({ where: { id }, include })] *)
Definition tx_incident_findUnique (id : string) : M (option HydratedIncident) :=
  let* _ := emit (EvIncidentFindUnique id) in
  let* _ := guard OpIncidentFindUnique in
  let* d := get_db in
  ret (hydrate d id).

(** [db.$transaction(async (tx) => ...)]: the callback's writes become
    durable when it returns and the commit goes through; when the callback
    or the commit rejects, the store is put back as it was and the
    rejection is passed on. *)
Definition db_transaction {A} (callback : M A) : M A :=
  fun w =>
    let before := db w in
    match (let* _ := emit EvTxBegin in callback) w with
    | (Ok a, w') =>
        if faults env OpCommit
        then (Throw (Rejected OpCommit),
              mkWorld before (trace w' ++ [EvTxRollback]) (idctr w'))
        else (Ok a, mkWorld (db w') (trace w' ++ [EvTxCommit (db w')]) (idctr w'))
    | (Throw e, w') =>
        (Throw e, mkWorld before (trace w' ++ [EvTxRollback]) (idctr w'))
    end.

(** [pusherServer.trigger(channel, event, data)] *)
Definition pusher_trigger (channel event : string)
    (data : option HydratedIncident) : M unit :=
  let* _ := emit (EvTrigger channel event data (negb (faults env OpTrigger))) in
  guard OpTrigger.

Definition console_error (tag : string) (e : Error) : M unit :=
  emit (EvConsoleError tag e).

(** [NextResponse.json(body, { status })] *)
Definition json_response (b : Body) (st : nat) : Response := mkResponse b st.

Definition POST (req : Request) : M Response :=
  try_catch
    (match truthy (session_userId req), truthy (session_orgId req) with
     | Some userId, Some orgId =>
         let* json := req_json req in
         match safeParse incidentSchema json with
         | ParseFailure errors =>
             ret (json_response (InvalidDataBody "Invalid data" errors) 400)
         | ParseSuccess data =>
             let* organization :=
               db_organization_findFirst (i_organizationId data) orgId in
             match organization with
             | None =>
                 ret (json_response (ErrorBody "Organization not found") 404)
             | Some _ =>
                 let* servicesCount :=
                   db_service_count (i_serviceIds data) (i_organizationId data) in
                 if negb (Nat.eqb servicesCount (length (i_serviceIds data)))
                 then ret (json_response
                             (ErrorBody "One or more services not found") 400)
                 else
                   let* incident :=
                     db_transaction
                       (let* id :=
                          tx_incident_create
                            (mkIncident (i_title data) (i_description data)
                               (i_status data) (i_impact data) (i_type data)
                               (i_organizationId data) (now env)) in
                        let* _ :=
                          tx_incidentService_createMany
                            (map (fun serviceId => mkIncidentService id serviceId)
                                 (i_serviceIds data)) in
                        tx_incident_findUnique id) in
                   let* _ :=
                     pusher_trigger ("org-" +:+ i_organizationId data)
                       "incident-created" incident in
                   ret (json_response (IncidentBody incident) 200)
             end
         end
     | _, _ => ret (json_response (ErrorBody "Unauthorized") 401)
     end)
    (fun error =>
       let* _ := console_error "[INCIDENTS_POST]" error in
       ret (json_response (ErrorBody "Internal server error") 500)).

End Handler.

(** ** The validation rules as the specification words them *)

Module Rules.

Inductive Constraint : Type :=
| CTitle
| CDescription
| CStatus
| CImpact
| CServiceIds
| CServiceId (i : nat)
| COrganizationId
| CType.

(** A string of between [lo] and [hi] characters. *)
Definition text_between (lo hi : nat) (v : option json) : bool :=
  match v with
  | Some (JStr s) => Nat.leb lo (String.length s) && Nat.leb (String.length s) hi
  | _ => false
  end.

(** One of the listed literals. *)
Definition one_of {A} (table : list (string * A)) (v : option json) : bool :=
  match v with
  | Some (JStr s) => bool_decide (is_Some (enum_lookup table s))
  | _ => false
  end.

(** A syntactically valid entity identifier. *)
Definition identifier (v : option json) : bool :=
  match v with
  | Some (JStr s) => is_cuid s
  | _ => false
  end.

Definition holds (fields : list (string * json)) (c : Constraint) : bool :=
  match c with
  | CTitle => text_between 1 100 (get_prop fields "title")
  | CDescription => text_between 10 1000 (get_prop fields "description")
  | CStatus => one_of status_values (get_prop fields "status")
  | CImpact => one_of impact_values (get_prop fields "impact")
  | CServiceIds =>
      match get_prop fields "serviceIds" with
      | Some (JArr items) => Nat.leb 1 (length items)
      | _ => false
      end
  | CServiceId i =>
      match get_prop fields "serviceIds" with
      | Some (JArr items) =>
          match items !! i with
          | Some x => identifier (Some x)
          | None => true
          end
      | _ => true
      end
  | COrganizationId => identifier (get_prop fields "organizationId")
  | CType =>
      match get_prop fields "type" with
      | None => true
      | Some x => one_of type_values (Some x)
      end
  end.

(** Where a violation of the constraint is reported. *)
Definition path_of (c : Constraint) : list PathSeg :=
  match c with
  | CTitle => [Key "title"]
  | CDescription => [Key "description"]
  | CStatus => [Key "status"]
  | CImpact => [Key "impact"]
  | CServiceIds => [Key "serviceIds"]
  | CServiceId i => [Key "serviceIds"; Idx i]
  | COrganizationId => [Key "organizationId"]
  | CType => [Key "type"]
  end.

(** The acceptance condition with the five rules on title, description,
    status, impact and type only. *)
Definition five_rules (fields : list (string * json)) : bool :=
  holds fields CTitle && holds fields CDescription && holds fields CStatus
  && holds fields CImpact && holds fields CType.

End Rules.

(** ** Properties of the validator *)

Section Validator.

Import Rules.

Lemma text_schema_spec lo hi path v :
  lo <= hi ->
  let r := z_string [CkMin lo; CkMax hi] path v in
  (text_between lo hi v = true -> r.1 = [] /\ is_Some r.2)
  /\ (text_between lo hi v = false -> exists i, r.1 = [i] /\ issue_path i = path).
Proof.
  intros Hle. destruct v as [[| | |s| |]|]; simpl;
    try (split; [discriminate | intros _; eexists; split; reflexivity]).
  destruct (Nat.ltb_spec (String.length s) lo) as [H1|H1],
           (Nat.ltb_spec hi (String.length s)) as [H2|H2]; simpl.
  - lia.
  - split; [|intros _; eexists; split; reflexivity].
    rewrite andb_true_iff, !Nat.leb_le. lia.
  - split; [|intros _; eexists; split; reflexivity].
    rewrite andb_true_iff, !Nat.leb_le. lia.
  - split; [intros _; split; [reflexivity|eauto]|].
    rewrite andb_false_iff, !Nat.leb_gt. lia.
Qed.

Lemma cuid_schema_spec path v :
  let r := z_string [CkCuid] path v in
  (identifier v = true -> r.1 = [] /\ exists s, v = Some (JStr s) /\ r.2 = Some s)
  /\ (identifier v = false -> exists i, r.1 = [i] /\ issue_path i = path).
Proof.
  destruct v as [[| | |s| |]|]; simpl;
    try (split; [discriminate | intros _; eexists; split; reflexivity]).
  destruct (is_cuid s); simpl.
  - split; [intros _; split; [reflexivity|eauto]|discriminate].
  - split; [discriminate|intros _; eexists; split; reflexivity].
Qed.

Lemma enum_schema_spec {A} (table : list (string * A)) path v :
  let r := z_enum table path v in
  (one_of table v = true -> r.1 = [] /\ is_Some r.2)
  /\ (one_of table v = false -> exists i, r.1 = [i] /\ issue_path i = path).
Proof.
  destruct v as [[| | |s| |]|]; simpl;
    try (split; [discriminate | intros _; eexists; split; reflexivity]).
  destruct (enum_lookup table s) as [a|]; simpl; split; intros H;
    try discriminate.
  - split; [reflexivity|eauto].
  - eexists; split; reflexivity.
Qed.

Lemma type_schema_spec path v :
  let r := type_schema path v in
  let ok := match v with None => true | Some x => one_of type_values (Some x) end in
  (ok = true -> r.1 = [] /\ is_Some r.2)
  /\ (ok = false -> exists i, r.1 = [i] /\ issue_path i = path)
  /\ (v = None -> r.2 = Some incident).
Proof.
  unfold type_schema, z_optional_default. destruct v as [x|].
  - pose proof (enum_schema_spec type_values path (Some x)) as [H1 H2].
    split; [exact H1|]. split; [exact H2|discriminate].
  - simpl. split; [eauto|]. split; [discriminate|reflexivity].
Qed.

Lemma parse_items_valid path items start :
  Forall (fun x => identifier (Some x) = true) items ->
  (parse_items (z_string [CkCuid]) path start items).1 = []
  /\ is_Some (parse_items (z_string [CkCuid]) path start items).2.
Proof.
  intros H. revert start. induction H as [|x items Hx _ IH]; intros start.
  - simpl. eauto.
  - cbn [parse_items].
    destruct (cuid_schema_spec (path ++ [Idx start]) (Some x)) as [Hok _].
    destruct (Hok Hx) as [He (s & _ & Hs)].
    destruct (z_string [CkCuid] (path ++ [Idx start]) (Some x)) as [e1 v1].
    destruct (IH (S start)) as [He' [l Hl]].
    destruct (parse_items (z_string [CkCuid]) path (S start) items) as [e2 v2].
    simpl in *. subst. eauto.
Qed.

Lemma parse_items_invalid path items start k x :
  items !! k = Some x ->
  identifier (Some x) = false ->
  exists i, i ∈ (parse_items (z_string [CkCuid]) path start items).1
            /\ issue_path i = path ++ [Idx (start + k)].
Proof.
  revert start k. induction items as [|y items IH]; intros start k Hk Hbad.
  - discriminate.
  - cbn [parse_items]. destruct k as [|k]; simpl in Hk.
    + injection Hk as ->.
      destruct (cuid_schema_spec (path ++ [Idx start]) (Some x)) as [_ Hko].
      destruct (Hko Hbad) as (i & Hi & Hp).
      destruct (z_string [CkCuid] (path ++ [Idx start]) (Some x)) as [e1 v1].
      destruct (parse_items (z_string [CkCuid]) path (S start) items) as [e2 v2].
      simpl in *. subst e1. exists i. split; [apply list_elem_of_here|].
      rewrite Hp. by rewrite Nat.add_0_r.
    + destruct (IH (S start) k Hk Hbad) as (i & Hi & Hp).
      destruct (z_string [CkCuid] (path ++ [Idx start]) (Some y)) as [e1 v1].
      destruct (parse_items (z_string [CkCuid]) path (S start) items) as [e2 v2].
      simpl in *. exists i. split; [apply elem_of_app; by right|].
      rewrite Hp. by rewrite Nat.add_succ_r.
Qed.

Lemma parse_items_clean path items start :
  (parse_items (z_string [CkCuid]) path start items).1 = [] ->
  Forall (fun x => identifier (Some x) = true) items.
Proof.
  intros H. apply Forall_lookup. intros k x Hk.
  destruct (identifier (Some x)) eqn:Hx; [done|].
  destruct (parse_items_invalid path items start k x Hk Hx) as (i & Hi & _).
  rewrite H in Hi. by apply elem_of_nil in Hi.
Qed.

(** Every element of the array is a valid identifier. *)
Definition items_valid (v : option json) : Prop :=
  match v with
  | Some (JArr items) =>
      1 <= length items /\ Forall (fun x => identifier (Some x) = true) items
  | _ => False
  end.

Lemma serviceIds_schema_valid path v :
  items_valid v <->
  (serviceIds_schema path v).1 = [] /\ is_Some (serviceIds_schema path v).2.
Proof.
  unfold serviceIds_schema, z_array_min, items_valid.
  destruct v as [[| | | |items|]|]; simpl; try (split; [tauto|intros [? _]; done]).
  pose proof (parse_items_valid path items 0) as Hv.
  pose proof (parse_items_clean path items 0) as Hc.
  destruct (parse_items (z_string [CkCuid]) path 0 items) as [e v]. simpl in *.
  destruct (Nat.ltb_spec (length items) 1) as [Hl|Hl]; simpl.
  - split; [lia|intros [? _]; done].
  - split.
    + intros [_ HF]. by apply Hv.
    + intros [-> _]. split; [lia|by apply Hc].
Qed.

Lemma serviceIds_schema_nonempty path v :
  match v with Some (JArr items) => Nat.leb 1 (length items) | _ => false end = false ->
  exists i, i ∈ (serviceIds_schema path v).1 /\ issue_path i = path.
Proof.
  unfold serviceIds_schema, z_array_min.
  destruct v as [[| | | |[|x items]|]|]; simpl; intros H; try discriminate;
    eexists; (split; [apply list_elem_of_here|reflexivity]).
Qed.

Lemma serviceIds_schema_element path items k x :
  items !! k = Some x ->
  identifier (Some x) = false ->
  exists i, i ∈ (serviceIds_schema path (Some (JArr items))).1
            /\ issue_path i = path ++ [Idx k].
Proof.
  intros Hk Hx. unfold serviceIds_schema, z_array_min.
  destruct (parse_items_invalid path items 0 k x Hk Hx) as (i & Hi & Hp).
  destruct (parse_items (z_string [CkCuid]) path 0 items) as [e v].
  simpl in *. exists i. split; [apply elem_of_app; by right|done].
Qed.

Definition build_intent (t d : option string) (st : option Status)
    (im : option Impact) (ids : option (list string)) (o : option string)
    (ty : option IncidentType) : option Intent :=
  match t, d, st, im, ids, o, ty with
  | Some t, Some d, Some s, Some i, Some ids, Some o, Some ty =>
      Some (mkIntent t d s i ids o ty)
  | _, _, _, _, _, _, _ => None
  end.

Lemma incidentSchema_object path fields :
  let at_key {A} (s : Schema A) (k : string) :=
    s (path ++ [Key k]) (get_prop fields k) in
  incidentSchema path (Some (JObj fields))
  = ((at_key title_schema "title").1 ++ (at_key description_schema "description").1
     ++ (at_key status_schema "status").1 ++ (at_key impact_schema "impact").1
     ++ (at_key serviceIds_schema "serviceIds").1
     ++ (at_key organizationId_schema "organizationId").1
     ++ (at_key type_schema "type").1,
     build_intent (at_key title_schema "title").2
       (at_key description_schema "description").2
       (at_key status_schema "status").2 (at_key impact_schema "impact").2
       (at_key serviceIds_schema "serviceIds").2
       (at_key organizationId_schema "organizationId").2
       (at_key type_schema "type").2).
Proof.
  unfold incidentSchema. simpl.
  destruct (title_schema _ _), (description_schema _ _), (status_schema _ _),
    (impact_schema _ _), (serviceIds_schema _ _), (organizationId_schema _ _),
    (type_schema _ _).
  reflexivity.
Qed.

Lemma holds_serviceIds_all fields :
  holds fields CServiceIds = true ->
  (forall k, holds fields (CServiceId k) = true) ->
  items_valid (get_prop fields "serviceIds").
Proof.
  unfold holds, items_valid.
  destruct (get_prop fields "serviceIds") as [[| | | |items|]|]; try discriminate.
  intros Hn Hall. split; [by apply Nat.leb_le|].
  apply Forall_lookup. intros k x Hk. specialize (Hall k). by rewrite Hk in Hall.
Qed.

Lemma items_valid_holds fields :
  items_valid (get_prop fields "serviceIds") ->
  holds fields CServiceIds = true /\ forall k, holds fields (CServiceId k) = true.
Proof.
  unfold holds, items_valid.
  destruct (get_prop fields "serviceIds") as [[| | | |items|]|]; try tauto.
  intros [Hn HF]. split; [by apply Nat.leb_le|].
  intros k. destruct (items !! k) as [x|] eqn:Hk; [|done].
  by eapply Forall_lookup in HF.
Qed.

Local Ltac found :=
  split; [rewrite !elem_of_app; auto 12 | assumption].

(** A violated rule has an issue at its path among the issues the schema
    raises on the object. *)
Lemma schema_reports fields c :
  holds fields c = false ->
  exists i, i ∈ (incidentSchema [] (Some (JObj fields))).1
            /\ issue_path i = path_of c.
Proof.
  intros H. rewrite incidentSchema_object. cbn [fst app].
  assert (forall (e : list ZodIssue) i p, e = [i] -> issue_path i = p ->
            exists i', i' ∈ e /\ issue_path i' = p) as one.
  { intros e i p -> Hp. exists i. split; [apply list_elem_of_here|done]. }
  destruct c; cbn [holds path_of] in *.
  - destruct (text_schema_spec 1 100 [Key "title"] (get_prop fields "title"))
      as [_ Hk]; [lia|]. destruct (Hk H) as (i & Hi & Hp).
    destruct (one _ _ _ Hi Hp) as (i' & ? & ?). exists i'. found.
  - destruct (text_schema_spec 10 1000 [Key "description"]
                (get_prop fields "description")) as [_ Hk]; [lia|].
    destruct (Hk H) as (i & Hi & Hp).
    destruct (one _ _ _ Hi Hp) as (i' & ? & ?). exists i'. found.
  - destruct (enum_schema_spec status_values [Key "status"]
                (get_prop fields "status")) as [_ Hk].
    destruct (Hk H) as (i & Hi & Hp).
    destruct (one _ _ _ Hi Hp) as (i' & ? & ?). exists i'. found.
  - destruct (enum_schema_spec impact_values [Key "impact"]
                (get_prop fields "impact")) as [_ Hk].
    destruct (Hk H) as (i & Hi & Hp).
    destruct (one _ _ _ Hi Hp) as (i' & ? & ?). exists i'. found.
  - destruct (serviceIds_schema_nonempty [Key "serviceIds"]
                (get_prop fields "serviceIds") H) as (i' & ? & ?).
    exists i'. found.
  - destruct (get_prop fields "serviceIds") as [[| | | |items|]|];
      try discriminate.
    destruct (items !! i) as [x|] eqn:Hx; [|discriminate].
    destruct (serviceIds_schema_element [Key "serviceIds"] items i x Hx H)
      as (i' & ? & ?).
    exists i'. found.
  - destruct (cuid_schema_spec [Key "organizationId"]
                (get_prop fields "organizationId")) as [_ Hk].
    destruct (Hk H) as (i & Hi & Hp).
    destruct (one _ _ _ Hi Hp) as (i' & ? & ?). exists i'. found.
  - destruct (type_schema_spec [Key "type"] (get_prop fields "type"))
      as (_ & Hk & _).
    destruct (Hk H) as (i & Hi & Hp).
    destruct (one _ _ _ Hi Hp) as (i' & ? & ?). exists i'. found.
Qed.

(** The schema raises no issue exactly when every rule holds, and then it
    yields an intent. *)
Lemma schema_accepts_iff fields :
  (forall c, holds fields c = true) <->
  exists data, incidentSchema [] (Some (JObj fields)) = ([], Some data).
Proof.
  split.
  - intros Hall. rewrite incidentSchema_object. cbn [app].
    unfold title_schema, description_schema, status_schema, impact_schema,
      organizationId_schema.
    destruct (text_schema_spec 1 100 [Key "title"] (get_prop fields "title"))
      as [H1 _]; [lia|]. destruct (H1 (Hall CTitle)) as [-> [t ->]].
    destruct (text_schema_spec 10 1000 [Key "description"]
                (get_prop fields "description")) as [H2 _]; [lia|].
    destruct (H2 (Hall CDescription)) as [-> [d ->]].
    destruct (enum_schema_spec status_values [Key "status"]
                (get_prop fields "status")) as [H3 _].
    destruct (H3 (Hall CStatus)) as [-> [st ->]].
    destruct (enum_schema_spec impact_values [Key "impact"]
                (get_prop fields "impact")) as [H4 _].
    destruct (H4 (Hall CImpact)) as [-> [im ->]].
    destruct (proj1 (serviceIds_schema_valid [Key "serviceIds"]
                       (get_prop fields "serviceIds"))) as [-> [ids ->]].
    { apply holds_serviceIds_all; [apply (Hall CServiceIds)|].
      intros k. apply (Hall (CServiceId k)). }
    destruct (cuid_schema_spec [Key "organizationId"]
                (get_prop fields "organizationId")) as [H6 _].
    destruct (H6 (Hall COrganizationId)) as [-> (o & _ & ->)].
    destruct (type_schema_spec [Key "type"] (get_prop fields "type"))
      as (H7 & _ & _).
    destruct (H7 (Hall CType)) as [-> [ty ->]].
    simpl. eauto.
  - intros [data Hd] c.
    destruct (holds fields c) eqn:Hc; [done|].
    destruct (schema_reports fields c Hc) as (i & Hi & _).
    rewrite Hd in Hi. by apply elem_of_nil in Hi.
Qed.

Lemma safeParse_success {A} (schema : Schema A) j data :
  safeParse schema j = ParseSuccess data <-> schema [] (Some j) = ([], Some data).
Proof.
  unfold safeParse. destruct (schema [] (Some j)) as [[|i e] [a|]];
    split; intros H; by simplify_eq.
Qed.

Lemma z_string_value checks path v s :
  (z_string checks path v).2 = Some s -> v = Some (JStr s).
Proof. destruct v as [[| | |s'| |]|]; simpl; intros H; by simplify_eq. Qed.

Lemma z_enum_value {A} (table : list (string * A)) path v a :
  (z_enum table path v).2 = Some a ->
  exists s, v = Some (JStr s) /\ enum_lookup table s = Some a.
Proof.
  destruct v as [[| | |s| |]|]; simpl; try discriminate.
  destruct (enum_lookup table s) as [a'|] eqn:E; simpl; intros H; simplify_eq.
  eauto.
Qed.

Lemma parse_items_value checks path start items l :
  (parse_items (z_string checks) path start items).2 = Some l ->
  items = map JStr l.
Proof.
  revert start l. induction items as [|x items IH]; intros start l.
  - simpl. intros H. by simplify_eq.
  - cbn [parse_items].
    pose proof (z_string_value checks (path ++ [Idx start]) (Some x)) as Hx.
    specialize (IH (S start)).
    destruct (z_string checks (path ++ [Idx start]) (Some x)) as [e1 [s|]];
      destruct (parse_items (z_string checks) path (S start) items) as [e2 [l'|]];
      simpl in *; intros H; simplify_eq.
    specialize (Hx s eq_refl). simplify_eq.
    by rewrite (IH l' eq_refl).
Qed.

Lemma serviceIds_schema_value path v l :
  (serviceIds_schema path v).2 = Some l -> v = Some (JArr (map JStr l)).
Proof.
  unfold serviceIds_schema, z_array_min.
  destruct v as [[| | | |items|]|]; simpl; try discriminate.
  pose proof (parse_items_value [CkCuid] path 0 items l) as H.
  destruct (parse_items (z_string [CkCuid]) path 0 items) as [e o].
  simpl in *. intros ->. by rewrite H.
Qed.

(** An accepted body is an object, and the intent carries its values. *)
Lemma safeParse_data j data :
  safeParse incidentSchema j = ParseSuccess data ->
  exists fields, j = JObj fields
    /\ (forall c, holds fields c = true)
    /\ get_prop fields "title" = Some (JStr (i_title data))
    /\ get_prop fields "description" = Some (JStr (i_description data))
    /\ (exists s, get_prop fields "status" = Some (JStr s)
                  /\ enum_lookup status_values s = Some (i_status data))
    /\ (exists s, get_prop fields "impact" = Some (JStr s)
                  /\ enum_lookup impact_values s = Some (i_impact data))
    /\ get_prop fields "serviceIds" = Some (JArr (map JStr (i_serviceIds data)))
    /\ get_prop fields "organizationId" = Some (JStr (i_organizationId data))
    /\ match get_prop fields "type" with
       | None => i_type data = incident
       | Some x => exists s, x = JStr s
                            /\ enum_lookup type_values s = Some (i_type data)
       end.
Proof.
  intros H. apply safeParse_success in H.
  destruct j as [| | | | |fields]; try (simpl in H; by simplify_eq).
  exists fields. split; [done|]. split.
  { apply schema_accepts_iff. eauto. }
  rewrite incidentSchema_object in H. cbn [app] in H.
  apply (f_equal snd) in H. cbn [snd] in H. unfold build_intent in H.
  destruct (title_schema _ _).2 as [t|] eqn:E1; [|discriminate].
  destruct (description_schema _ _).2 as [d|] eqn:E2; [|discriminate].
  destruct (status_schema _ _).2 as [st|] eqn:E3; [|discriminate].
  destruct (impact_schema _ _).2 as [im|] eqn:E4; [|discriminate].
  destruct (serviceIds_schema _ _).2 as [ids|] eqn:E5; [|discriminate].
  destruct (organizationId_schema _ _).2 as [o|] eqn:E6; [|discriminate].
  destruct (type_schema _ _).2 as [ty|] eqn:E7; [|discriminate].
  simplify_eq. cbn [i_title i_description i_status i_impact i_serviceIds
                    i_organizationId i_type].
  apply z_string_value in E1, E2, E6. apply z_enum_value in E3, E4.
  apply serviceIds_schema_value in E5.
  repeat (split; [done|]).
  unfold type_schema, z_optional_default in E7.
  destruct (get_prop fields "type") as [x|].
  - apply z_enum_value in E7 as (s & ? & ?). simplify_eq. eauto.
  - simpl in E7. by simplify_eq.
Qed.

Lemma safeParse_serviceIds j data :
  safeParse incidentSchema j = ParseSuccess data ->
  i_serviceIds data <> [] /\ Forall (fun id => is_cuid id = true) (i_serviceIds data).
Proof.
  intros H. destruct (safeParse_data j data H)
    as (fields & -> & Hall & _ & _ & _ & _ & Hids & _).
  pose proof (holds_serviceIds_all fields (Hall CServiceIds)
                (fun k => Hall (CServiceId k))) as Hv.
  unfold items_valid in Hv. rewrite Hids in Hv.
  destruct Hv as [Hn HF]. rewrite length_map in Hn. split.
  - intros E. rewrite E in Hn. simpl in Hn. lia.
  - apply Forall_map in HF. exact HF.
Qed.

End Validator.

(** ** Properties of the store operations *)

Section Store.

(** The service [id] exists and belongs to the organization [org]. *)
Definition owned (d : Db) (org id : string) : Prop :=
  exists s, services d !! id = Some s /\ s_organizationId s = org.

(** The number the count query returns. *)
Definition matched (d : Db) (ids : list string) (org : string) : nat :=
  size (filter (service_matches ids org) (services d)).

Lemma remove_dups_length_le (l : list string) :
  length (remove_dups l) <= length l.
Proof.
  induction l as [|x l IH]; simpl; [lia|].
  destruct (decide_rel elem_of x l); simpl; lia.
Qed.

Lemma remove_dups_length_eq (l : list string) :
  length (remove_dups l) = length l -> NoDup l.
Proof.
  induction l as [|x l IH]; simpl; [constructor|].
  pose proof (remove_dups_length_le l).
  destruct (decide_rel elem_of x l); simpl; intros H'; [lia|].
  constructor; [done|]. apply IH. lia.
Qed.

Lemma matched_dom d ids org k :
  k ∈ dom (filter (service_matches ids org) (services d))
  <-> k ∈ ids /\ owned d org k.
Proof.
  rewrite elem_of_dom. unfold is_Some, owned.
  setoid_rewrite map_lookup_filter_Some. unfold service_matches. simpl.
  naive_solver.
Qed.

Lemma matched_le d ids org :
  matched d ids org <= length (remove_dups ids).
Proof.
  unfold matched. rewrite <- size_dom.
  rewrite <- (size_list_to_set (C:=gset string) (remove_dups ids))
    by apply NoDup_remove_dups.
  apply subseteq_size. intros k Hk. apply matched_dom in Hk as [Hk _].
  by rewrite elem_of_list_to_set, elem_of_remove_dups.
Qed.

(** The count equals the number of requested identifiers exactly when the
    identifiers are pairwise distinct and each one names a service of the
    organization. *)
Lemma matched_eq_iff d ids org :
  matched d ids org = length ids
  <-> NoDup ids /\ forall id, id ∈ ids -> owned d org id.
Proof.
  split.
  - intros Heq.
    pose proof (matched_le d ids org) as Hle.
    pose proof (remove_dups_length_le ids) as Hle'.
    assert (NoDup ids) as Hnd by (apply remove_dups_length_eq; lia).
    split; [done|].
    assert (dom (filter (service_matches ids org) (services d))
            = list_to_set (C:=gset string) ids) as Hdom.
    { apply set_subseteq_size_eq.
      - intros k Hk. apply matched_dom in Hk as [Hk _].
        by rewrite elem_of_list_to_set.
      - rewrite size_list_to_set by done. rewrite size_dom.
        unfold matched in Heq. lia. }
    intros id Hid.
    assert (id ∈ dom (filter (service_matches ids org) (services d))) as Hin.
    { rewrite Hdom. by rewrite elem_of_list_to_set. }
    by apply matched_dom in Hin as [_ ?].
  - intros [Hnd Hall]. unfold matched. rewrite <- size_dom.
    rewrite <- (size_list_to_set (C:=gset string) ids) by done.
    f_equal. apply set_eq. intros k.
    rewrite matched_dom, elem_of_list_to_set. naive_solver.
Qed.

End Store.

(** ** Running the handler *)

(** The calls made between two worlds of one run. *)
Definition emitted (w w' : World) : list Event :=
  drop (length (trace w)) (trace w').

Definition authenticated (req : Request) : Prop :=
  is_Some (truthy (session_userId req)) /\ is_Some (truthy (session_orgId req)).

Definition is_trigger (ev : Event) : bool :=
  match ev with EvTrigger _ _ _ _ => true | _ => false end.

Definition unauthorized : Response :=
  json_response (ErrorBody "Unauthorized") 401.
Definition invalid_data (errors : list ZodIssue) : Response :=
  json_response (InvalidDataBody "Invalid data" errors) 400.
Definition organization_not_found : Response :=
  json_response (ErrorBody "Organization not found") 404.
Definition services_not_found : Response :=
  json_response (ErrorBody "One or more services not found") 400.
Definition internal_error : Response :=
  json_response (ErrorBody "Internal server error") 500.

Ltac run_handler :=
  unfold POST, try_catch, db_organization_findFirst, db_service_count,
    db_transaction, tx_incident_create, tx_incidentService_createMany,
    tx_incident_findUnique, pusher_trigger, console_error, req_json, guard,
    bind, ret, throw, emit, get_db, put_db, fresh_id in *;
  cbn [db trace idctr fst snd] in *.

Lemma emitted_app w tr d n evs :
  tr = trace w ++ evs -> emitted w (mkWorld d tr n) = evs.
Proof. intros ->. unfold emitted. simpl. by rewrite drop_app_length. Qed.

Section Runs.

Variable env : Env.

Lemma POST_unauthenticated req w :
  ~ authenticated req -> POST env req w = (Ok unauthorized, w).
Proof.
  unfold authenticated. intros H. run_handler.
  destruct (truthy (session_userId req)), (truthy (session_orgId req));
    try done.
  destruct H. eauto.
Qed.

Lemma POST_unparseable req w :
  authenticated req -> body req = None ->
  POST env req w
  = (Ok internal_error,
     mkWorld (db w) (trace w ++ [EvConsoleError "[INCIDENTS_POST]" SyntaxError])
             (idctr w)).
Proof.
  intros [[u Hu] [o Ho]] Hb. run_handler. by rewrite Hu, Ho, Hb.
Qed.

Lemma POST_invalid req w j errors :
  authenticated req -> body req = Some j ->
  safeParse incidentSchema j = ParseFailure errors ->
  POST env req w = (Ok (invalid_data errors), w).
Proof.
  intros [[u Hu] [o Ho]] Hb Hp. run_handler. by rewrite Hu, Ho, Hb, Hp.
Qed.

End Runs.

Section Executions.

Variable env : Env.

(** The row the handler asks the store to insert. *)
Definition intent_row (data : Intent) : IncidentRow :=
  mkIncident (i_title data) (i_description data) (i_status data)
    (i_impact data) (i_type data) (i_organizationId data) (now env).

(** The store after the incident [id] and its associations were written. *)
Definition created (d : Db) (id : string) (data : Intent) : Db :=
  mkDb (organizations d) (services d)
       (<[id := intent_row data]> (incidents d))
       (incidentServices d
        ++ map (fun serviceId => mkIncidentService id serviceId)
               (i_serviceIds data)).

Definition is_commit (ev : Event) : bool :=
  match ev with EvTxCommit _ => true | _ => false end.

(** Neither a commit nor a call to the transport. *)
Definition quiet (ev : Event) : Prop :=
  is_commit ev = false /\ is_trigger ev = false.

Definition log (w : World) (evs : list Event) : World :=
  mkWorld (db w) (trace w ++ evs) (idctr w).

Local Ltac traces := rewrite <- ?app_assoc; reflexivity.
Local Ltac all_quiet := repeat (constructor; [by split|]); constructor.

Lemma run_findFirst id clerk w :
  db_organization_findFirst env id clerk w
  = (if faults env OpOrganizationFindFirst
     then Throw (Rejected OpOrganizationFindFirst)
     else Ok (match organizations (db w) !! id with
              | Some o => if String.eqb (clerkOrgId o) clerk then Some o else None
              | None => None
              end),
     log w [EvOrganizationFindFirst id clerk]).
Proof. run_handler. by destruct (faults env OpOrganizationFindFirst). Qed.

Lemma run_count ids org w :
  db_service_count env ids org w
  = (if faults env OpServiceCount then Throw (Rejected OpServiceCount)
     else Ok (matched (db w) ids org),
     log w [EvServiceCount ids org]).
Proof. run_handler. by destruct (faults env OpServiceCount). Qed.

(** The transaction callback of the handler. *)
Definition writer (data : Intent) : M (option HydratedIncident) :=
  let* id := tx_incident_create env (intent_row data) in
  let* _ :=
    tx_incidentService_createMany env
      (map (fun serviceId => mkIncidentService id serviceId)
           (i_serviceIds data)) in
  tx_incident_findUnique env id.

Definition writer_calls (id : string) (data : Intent) : list Event :=
  [EvTxBegin; EvIncidentCreate id;
   EvIncidentServiceCreateMany
     (map (fun serviceId => mkIncidentService id serviceId) (i_serviceIds data));
   EvIncidentFindUnique id].

(** The transaction goes through when no call in it rejects and the
    generated identity is new. *)
Definition writer_ok (w : World) : bool :=
  negb (faults env OpIncidentCreate)
  && bool_decide (incidents (db w) !! idgen env (idctr w) = None)
  && negb (faults env OpIncidentServiceCreateMany)
  && negb (faults env OpIncidentFindUnique)
  && negb (faults env OpCommit).

(** The transaction either commits the incident with all its associations
    or leaves the store as it was. *)
Lemma run_transaction data w :
  let id := idgen env (idctr w) in
  if writer_ok w
  then db_transaction env (writer data) w
       = (Ok (hydrate (created (db w) id data) id),
          mkWorld (created (db w) id data)
            (trace w ++ writer_calls id data
               ++ [EvTxCommit (created (db w) id data)])
            (S (idctr w)))
  else exists e evs,
      db_transaction env (writer data) w
      = (Throw e, mkWorld (db w) (trace w ++ evs ++ [EvTxRollback]) (S (idctr w)))
      /\ Forall quiet evs
      /\ (exists rest, evs = EvTxBegin :: EvIncidentCreate id :: rest).
Proof.
  intros id. unfold writer, writer_ok. run_handler. fold id.
  destruct (faults env OpIncidentCreate) eqn:F1; cbn [db trace idctr negb andb].
  { exists (Rejected OpIncidentCreate), [EvTxBegin; EvIncidentCreate id].
    split; [traces|]. split; [all_quiet|eauto]. }
  destruct (incidents (db w) !! id) eqn:Hid; cbn [db trace idctr].
  { rewrite bool_decide_eq_false_2 by done. cbn [andb].
    exists UniqueConstraintViolation, [EvTxBegin; EvIncidentCreate id].
    split; [traces|]. split; [all_quiet|eauto]. }
  rewrite bool_decide_eq_true_2 by done. cbn [andb].
  destruct (faults env OpIncidentServiceCreateMany) eqn:F2;
    cbn [db trace idctr negb andb].
  { eexists _, [EvTxBegin; EvIncidentCreate id; _].
    split; [traces|]. split; [all_quiet|eauto]. }
  destruct (faults env OpIncidentFindUnique) eqn:F3;
    cbn [db trace idctr negb andb].
  { eexists _, (writer_calls id data).
    split; [traces|]. split; [all_quiet|unfold writer_calls; eauto]. }
  destruct (faults env OpCommit) eqn:F4; cbn [db trace idctr negb andb].
  { eexists _, (writer_calls id data).
    split; [traces|]. split; [all_quiet|unfold writer_calls; eauto]. }
  unfold created, intent_row. f_equal. f_equal. traces.
Qed.

(** The calls of a run whose transaction committed. *)
Definition committed_calls (d : Db) (id orgId : string) (data : Intent)
  : list Event :=
  [EvOrganizationFindFirst (i_organizationId data) orgId;
   EvServiceCount (i_serviceIds data) (i_organizationId data)]
  ++ writer_calls id data
  ++ [EvTxCommit (created d id data);
      EvTrigger ("org-" +:+ i_organizationId data) "incident-created"
        (hydrate (created d id data) id) (negb (faults env OpTrigger))]
  ++ (if faults env OpTrigger
      then [EvConsoleError "[INCIDENTS_POST]" (Rejected OpTrigger)]
      else []).

(** The organization named by the intent exists and is the caller's. *)
Definition organization_found (d : Db) (id clerk : string) : bool :=
  match organizations d !! id with
  | Some o => String.eqb (clerkOrgId o) clerk
  | None => false
  end.

(** Every check before the writer passes and the writer goes through. *)
Definition commits (req : Request) (w : World) (orgId : string)
    (data : Intent) : Prop :=
  authenticated req
  /\ truthy (session_orgId req) = Some orgId
  /\ (exists j, body req = Some j
                /\ safeParse incidentSchema j = ParseSuccess data)
  /\ faults env OpOrganizationFindFirst = false
  /\ organization_found (db w) (i_organizationId data) orgId = true
  /\ faults env OpServiceCount = false
  /\ matched (db w) (i_serviceIds data) (i_organizationId data)
     = length (i_serviceIds data)
  /\ writer_ok w = true.

Definition success (d : Db) (id : string) (data : Intent) : Response :=
  json_response (IncidentBody (hydrate (created d id data) id)) 200.

(** The handler past validation, with the transaction callback named. *)
Definition authorize_write_notify (orgId : string) (data : Intent) : M Response :=
  let* organization :=
    db_organization_findFirst env (i_organizationId data) orgId in
  match organization with
  | None => ret organization_not_found
  | Some _ =>
      let* servicesCount :=
        db_service_count env (i_serviceIds data) (i_organizationId data) in
      if negb (Nat.eqb servicesCount (length (i_serviceIds data)))
      then ret services_not_found
      else
        let* incident := db_transaction env (writer data) in
        let* _ :=
          pusher_trigger env ("org-" +:+ i_organizationId data)
            "incident-created" incident in
        ret (json_response (IncidentBody incident) 200)
  end.

Definition on_error (error : Error) : M Response :=
  let* _ := console_error "[INCIDENTS_POST]" error in
  ret internal_error.

Lemma POST_valid req w u orgId j data :
  truthy (session_userId req) = Some u ->
  truthy (session_orgId req) = Some orgId ->
  body req = Some j ->
  safeParse incidentSchema j = ParseSuccess data ->
  POST env req w = try_catch (authorize_write_notify orgId data) on_error w.
Proof.
  intros Hu Ho Hb Hp. unfold POST, try_catch. rewrite Hu, Ho.
  unfold req_json, bind at 1. rewrite Hb. unfold ret at 1. by rewrite Hp.
Qed.

(** Every run answers; it either leaves the store as it was, publishes
    nothing and answers with an error, or commits the incident with all its
    associations and then calls the transport once. *)
Lemma POST_runs req w :
  (exists resp evs n,
      POST env req w = (Ok resp, mkWorld (db w) (trace w ++ evs) n)
      /\ Forall quiet evs
      /\ resp_status resp <> 200
      /\ (forall orgId data, ~ commits req w orgId data))
  \/ (exists orgId data,
        let id := idgen env (idctr w) in
        commits req w orgId data
        /\ POST env req w
           = (Ok (if faults env OpTrigger then internal_error
                  else success (db w) id data),
              mkWorld (created (db w) id data)
                (trace w ++ committed_calls (db w) id orgId data)
                (S (idctr w)))).
Proof.
  destruct (decide (authenticated req)) as [Ha|Ha]; cycle 1.
  { left. exists unauthorized, [], (idctr w). rewrite POST_unauthenticated by done.
    rewrite app_nil_r. destruct w. repeat split; try done.
    intros o data (? & _). done. }
  destruct (body req) as [j|] eqn:Hb; cycle 1.
  { left. eexists _, _, _. rewrite POST_unparseable by done.
    split; [reflexivity|]. split; [all_quiet|]. split; [done|].
    intros o data (_ & _ & (j & ? & _) & _). congruence. }
  destruct (safeParse incidentSchema j) as [data|errors] eqn:Hp; cycle 1.
  { left. exists (invalid_data errors), [], (idctr w).
    rewrite (POST_invalid env req w j errors) by done.
    rewrite app_nil_r. destruct w. repeat split; try done.
    intros o data (_ & _ & (j' & ? & ?) & _). congruence. }
  destruct Ha as [[u Hu] [o Ho]].
  assert (forall o' data', commits req w o' data' -> o' = o /\ data' = data)
    as Hsame.
  { intros o' data' (_ & ? & (j' & ? & ?) & _). split; congruence. }
  rewrite (POST_valid req w u o j data) by done.
  unfold try_catch, authorize_write_notify, on_error, bind.
  rewrite run_findFirst.
  destruct (faults env OpOrganizationFindFirst) eqn:F1.
  { left. eexists _, [_; _], _. unfold console_error, emit, ret, log; simpl.
    split; [f_equal; f_equal; traces|]. split; [all_quiet|]. split; [done|].
    intros o' data' (_ & _ & _ & ? & _). congruence. }
  assert (organization_found (db w) (i_organizationId data) o
          = match (match organizations (db w) !! i_organizationId data with
                   | Some r => if String.eqb (clerkOrgId r) o then Some r else None
                   | None => None
                   end) with Some _ => true | None => false end) as Hfound.
  { unfold organization_found.
    destruct (organizations (db w) !! i_organizationId data) as [r|]; [|done].
    by destruct (String.eqb (clerkOrgId r) o). }
  destruct (match organizations (db w) !! i_organizationId data with
            | Some r => if String.eqb (clerkOrgId r) o then Some r else None
            | None => None
            end) as [orow|]; cycle 1.
  { left. exists organization_not_found, [EvOrganizationFindFirst (i_organizationId data) o], (idctr w).
    split; [reflexivity|]. split; [all_quiet|]. split; [done|].
    intros o' data' Hc. destruct (Hsame _ _ Hc) as [-> ->].
    destruct Hc as (_ & _ & _ & _ & ? & _). congruence. }
  rewrite run_count.
  destruct (faults env OpServiceCount) eqn:F2.
  { left. eexists _, [_; _; _], _. unfold console_error, emit, ret, log; simpl.
    split; [f_equal; f_equal; traces|]. split; [all_quiet|]. split; [done|].
    intros o' data' (_ & _ & _ & _ & _ & ? & _). congruence. }
  cbv beta iota. change (db (log w _)) with (db w).
  destruct (Nat.eqb_spec (matched (db w) (i_serviceIds data) (i_organizationId data))
              (length (i_serviceIds data))) as [Hm|Hm]; cbn [negb]; cycle 1.
  { left. eexists services_not_found, [_; _], (idctr w). unfold ret, log; simpl.
    split; [f_equal; f_equal; traces|]. split; [all_quiet|]. split; [done|].
    intros o' data' Hc. destruct (Hsame _ _ Hc) as [-> ->].
    destruct Hc as (_ & _ & _ & _ & _ & _ & ? & _). congruence. }
  cbv beta iota.
  match goal with |- context [db_transaction env (writer data) ?w'] =>
    pose proof (run_transaction data w') as Htx; set (w2 := w') in *
  end.
  change (writer_ok w2) with (writer_ok w) in Htx.
  destruct (writer_ok w) eqn:Hok.
  - right. exists o, data. cbn zeta. split.
    { unfold commits, authenticated. rewrite Hu, Ho, Hb. eauto 12. }
    rewrite Htx. unfold pusher_trigger, bind, emit, guard, w2, log.
    cbn [db trace idctr]. unfold committed_calls.
    destruct (faults env OpTrigger); unfold throw, ret, console_error, emit;
      cbn [db trace idctr negb]; f_equal; f_equal; traces.
  - left. destruct Htx as (e & evs & -> & Hq & _).
    unfold console_error, emit, ret, w2, log; cbn [db trace idctr].
    eexists _, ([_; _] ++ evs ++ [EvTxRollback; _]), _.
    split; [f_equal; f_equal; traces|]. split.
    { repeat (constructor; [by split|]). apply Forall_app. split; [done|].
      all_quiet. }
    split; [done|].
    intros o' data' (_ & _ & _ & _ & _ & _ & _ & ?). congruence.
Qed.

(** Past validation the store is consulted in a fixed order: the
    organization first, then the services, then the writer. *)
Lemma POST_valid_stages req w u orgId j data :
  truthy (session_userId req) = Some u ->
  truthy (session_orgId req) = Some orgId ->
  body req = Some j ->
  safeParse incidentSchema j = ParseSuccess data ->
  exists resp w' rest,
    POST env req w = (Ok resp, w')
    /\ emitted w w'
       = EvOrganizationFindFirst (i_organizationId data) orgId :: rest
    /\ (faults env OpOrganizationFindFirst = false ->
        if organization_found (db w) (i_organizationId data) orgId
        then exists rest',
            rest = EvServiceCount (i_serviceIds data) (i_organizationId data)
                   :: rest'
            /\ (faults env OpServiceCount = false ->
                if decide (matched (db w) (i_serviceIds data)
                             (i_organizationId data)
                           = length (i_serviceIds data))
                then exists rest'',
                    rest' = EvTxBegin
                            :: EvIncidentCreate (idgen env (idctr w)) :: rest''
                else resp = services_not_found /\ rest' = [] /\ db w' = db w)
        else resp = organization_not_found /\ rest = [] /\ db w' = db w).
Proof.
  intros Hu Ho Hb Hp.
  rewrite (POST_valid req w u orgId j data) by done.
  unfold try_catch, authorize_write_notify, on_error, bind.
  rewrite run_findFirst.
  destruct (faults env OpOrganizationFindFirst) eqn:F1.
  { eexists _, _, [_]. unfold console_error, emit, ret, log; simpl.
    split; [reflexivity|]. split; [apply emitted_app; traces|done]. }
  unfold organization_found.
  destruct (organizations (db w) !! i_organizationId data) as [r|]; cycle 1.
  { eexists _, _, []. split; [reflexivity|].
    split; [by apply emitted_app|done]. }
  destruct (String.eqb (clerkOrgId r) orgId); cycle 1.
  { eexists _, _, []. split; [reflexivity|].
    split; [by apply emitted_app|done]. }
  rewrite run_count.
  destruct (faults env OpServiceCount) eqn:F2.
  { eexists _, _, [_; _]. unfold console_error, emit, ret, log; simpl.
    split; [reflexivity|]. split; [apply emitted_app; traces|].
    intros _. eexists. split; [reflexivity|done]. }
  cbv beta iota. change (db (log w _)) with (db w).
  destruct (decide (matched (db w) (i_serviceIds data) (i_organizationId data)
                    = length (i_serviceIds data))) as [Hm|Hm].
  - rewrite (proj2 (Nat.eqb_eq _ _) Hm). cbn [negb]. cbv beta iota.
    match goal with |- context [db_transaction env (writer data) ?w'] =>
      pose proof (run_transaction data w') as Htx; set (w2 := w') in *
    end.
    change (idctr w2) with (idctr w) in Htx.
    destruct (writer_ok w2).
    + cbv zeta in Htx. rewrite Htx.
      unfold pusher_trigger, bind, emit, guard, w2, log. cbn [db trace idctr].
      destruct (faults env OpTrigger); unfold throw, ret, console_error, emit;
        cbn [db trace idctr negb]; eexists _, _, _;
        (split; [reflexivity|]);
        (split; [apply emitted_app; traces|]);
        intros _; (eexists; split; [reflexivity|]);
        intros _; eexists; reflexivity.
    + destruct Htx as (e & evs & -> & _ & (rest & ->)).
      unfold console_error, emit, ret, w2, log; cbn [db trace idctr].
      eexists _, _, _. split; [reflexivity|].
      split; [apply emitted_app; traces|].
      intros _. eexists. split; [reflexivity|].
      intros _. eexists. reflexivity.
  - rewrite (proj2 (Nat.eqb_neq _ _) Hm). cbn [negb].
    eexists _, _, [_]. unfold ret, log; simpl.
    split; [reflexivity|]. split; [apply emitted_app; traces|].
    intros _. eexists. split; [reflexivity|done].
Qed.

End Executions.

(** ** A sample tenant *)

#[global] Instance Op_eq_dec : EqDecision Op.
Proof. solve_decision. Defined.

Definition no_faults : Op -> bool := fun _ => false.

(** Only the call [op] rejects. *)
Definition only (op : Op) : Op -> bool := fun op' => bool_decide (op' = op).

Definition sample_env (f : Op -> bool) : Env :=
  mkEnv f 1700000000
        (fun n => "ckincident000" +:+ String (ascii_of_nat (48 + n)) "").

Definition cuid3 : string := "ckservice0003".
Definition cuidP : string := "ckorganiz0002".

(** Organization [cuidO] owns the services [cuid1] and [cuid2]; [cuid3]
    belongs to another organization. *)
Definition sample_db : Db :=
  mkDb (<[cuidO := mkOrganization "org_1"]>
          (<[cuidP := mkOrganization "org_2"]> ∅))
       (<[cuid1 := mkService "API" None cuidO]>
          (<[cuid2 := mkService "Website" (Some "Public site") cuidO]>
             (<[cuid3 := mkService "Billing" None cuidP]> ∅)))
       ∅ [].

Definition sample_world : World := mkWorld sample_db [] 0.

Definition body_with (title description status : string) (ids : list string)
  : json :=
  JObj [("title", JStr title); ("description", JStr description);
        ("status", JStr status); ("impact", JStr "minor");
        ("serviceIds", JArr (map JStr ids)); ("organizationId", JStr cuidO)].

Definition caller (b : option json) : Request :=
  mkRequest (Some "user_1") (Some "org_1") b.


Definition sample_intent (ids : list string) : Intent :=
  mkIntent "API down" "Requests to the API time out." investigating minor
           ids cuidO incident.

Definition sample_body (ids : list string) : json :=
  body_with "API down" "Requests to the API time out." "investigating" ids.

Example sample_body_parses :
  safeParse incidentSchema (sample_body [cuid1; cuid2])
  = ParseSuccess (sample_intent [cuid1; cuid2]).
Proof. reflexivity. Qed.

(** ** Auxiliary facts *)

(** The rules of the schema: the five above, a non-empty array of valid
    identifiers under [serviceIds], and a valid identifier under
    [organizationId]. *)
Definition all_rules (fields : list (string * json)) : Prop :=
  Rules.five_rules fields = true
  /\ items_valid (get_prop fields "serviceIds")
  /\ Rules.identifier (get_prop fields "organizationId") = true.

Lemma all_rules_holds fields :
  all_rules fields <-> forall c, Rules.holds fields c = true.
Proof.
  unfold all_rules, Rules.five_rules. rewrite !andb_true_iff. split.
  - intros (((((? & ?) & ?) & ?) & ?) & Hv & ?).
    destruct (items_valid_holds fields Hv) as [? ?]. intros []; auto.
  - intros Hall. split; [|split].
    + repeat split; apply Hall.
    + apply holds_serviceIds_all; [apply (Hall Rules.CServiceIds)|].
      intros k. apply (Hall (Rules.CServiceId k)).
    + apply (Hall Rules.COrganizationId).
Qed.

Lemma safeParse_reports {A} (schema : Schema A) j :
  (schema [] (Some j)).1 <> [] ->
  safeParse schema j = ParseFailure (schema [] (Some j)).1.
Proof.
  unfold safeParse. by destruct (schema [] (Some j)) as [[|i e] [a|]].
Qed.

(** The example of section 8 of the specification. *)
Definition spec_example : list (string * json) :=
  [("title", JStr ""); ("description", JStr "short"); ("status", JStr "bogus");
   ("impact", JStr "minor"); ("serviceIds", JArr [])].

Example spec_example_issues :
  safeParse incidentSchema (JObj spec_example)
  = ParseFailure [mkIssue too_small [Key "title"];
                  mkIssue too_small [Key "description"];
                  mkIssue invalid_enum_value [Key "status"];
                  mkIssue too_small [Key "serviceIds"];
                  mkIssue invalid_type [Key "organizationId"]].
Proof. reflexivity. Qed.

(** Reading back the incident that was just written. *)
Lemma hydrate_created env d id data :
  exists h,
    hydrate (created env d id data) id = Some h
    /\ h_id h = id
    /\ h_row h = intent_row env data.
Proof.
  unfold hydrate, created. cbn [incidents]. rewrite lookup_insert_eq.
  eexists. split; [reflexivity|]. done.
Qed.

(** A list with a single marked element splits around it in one way. *)
Lemma split_at_unique {A} (P : A -> bool) l1 x l2 pre y post :
  l1 ++ x :: l2 = pre ++ y :: post ->
  P y = true ->
  Forall (fun a => P a = false) l1 ->
  Forall (fun a => P a = false) l2 ->
  pre = l1 /\ y = x /\ post = l2.
Proof.
  intros Heq Hy H1 H2. revert pre Heq.
  induction H1 as [|a l1 Ha _ IH]; intros pre Heq.
  - destruct pre as [|b pre]; simpl in Heq.
    + by simplify_eq.
    + simplify_eq. rewrite Forall_app, Forall_cons in H2.
      destruct H2 as (_ & Hy' & _). congruence.
  - destruct pre as [|b pre]; simpl in Heq; simplify_eq.
    + congruence.
    + destruct (IH pre) as (-> & -> & ->); done.
Qed.

Lemma committed_calls_split env d id orgId data :
  committed_calls env d id orgId data
  = ([EvOrganizationFindFirst (i_organizationId data) orgId;
      EvServiceCount (i_serviceIds data) (i_organizationId data)]
     ++ writer_calls id data ++ [EvTxCommit (created env d id data)])
    ++ EvTrigger ("org-" +:+ i_organizationId data) "incident-created"
         (hydrate (created env d id data) id) (negb (faults env OpTrigger))
    :: (if faults env OpTrigger
        then [EvConsoleError "[INCIDENTS_POST]" (Rejected OpTrigger)]
        else []).
Proof. reflexivity. Qed.

Lemma committed_calls_no_rollback env d id orgId data :
  EvTxRollback ∉ committed_calls env d id orgId data.
Proof.
  unfold committed_calls, writer_calls. intros H.
  repeat (apply elem_of_cons in H as [H|H]; [discriminate|]).
  destruct (faults env OpTrigger).
  - apply elem_of_cons in H as [H|H]; [discriminate|]. by apply elem_of_nil in H.
  - by apply elem_of_nil in H.
Qed.


Lemma quiet_no_trigger evs pre ch ev p ok post :
  Forall quiet evs -> evs <> pre ++ EvTrigger ch ev p ok :: post.
Proof.
  intros H ->. apply Forall_app in H as [_ H].
  apply Forall_cons in H as [[_ H] _]. done.
Qed.

(** Modelled from the spec: the foreign key of the association table into
    the incident table (section 6), which the Prisma schema, not among the
    sources, declares: every association row points to a stored incident. *)
Definition referential (d : Db) : Prop :=
  forall r, r ∈ incidentServices d -> is_Some (incidents d !! incidentId r).

(** The association rows of a new incident, each with its service. *)
Definition joined (d : Db) (id : string) (ids : list string)
  : list IncidentServiceObj :=
  map (fun sid =>
         mkIncidentServiceObj id sid
           (match services d !! sid with
            | Some s => Some (sid, s)
            | None => None
            end)) ids.

Lemma filter_none_of (id : string) (rows : list IncidentServiceRow) :
  (forall r, r ∈ rows -> incidentId r <> id) ->
  filter (fun r => incidentId r = id) rows = [].
Proof.
  induction rows as [|r rows IH]; intros H; [done|].
  rewrite filter_cons_False by (apply H, list_elem_of_here).
  apply IH. intros r' Hr'. by apply H, list_elem_of_further.
Qed.

Lemma filter_all_of (id : string) (ids : list string) :
  filter (fun r => incidentId r = id)
         (map (fun serviceId => mkIncidentService id serviceId) ids)
  = map (fun serviceId => mkIncidentService id serviceId) ids.
Proof.
  induction ids as [|x ids IH]; [done|].
  cbn [map]. rewrite filter_cons_True by done. by rewrite IH.
Qed.

Lemma hydrate_created_joined env d id data :
  referential d ->
  incidents d !! id = None ->
  hydrate (created env d id data) id
  = Some (mkHydrated id (intent_row env data) (joined d id (i_serviceIds data))).
Proof.
  intros Hfk Hnew. unfold hydrate, created, joined.
  cbn [incidents incidentServices services]. rewrite lookup_insert_eq.
  rewrite filter_app, filter_all_of, filter_none_of.
  - cbn [app]. by rewrite map_map.
  - intros r Hr E. destruct (Hfk r Hr) as [row Hrow]. congruence.
Qed.

(** ** The claims *)












(** C3.  When some requested service is not a service of the target
    organization (it does not exist, or it belongs to another tenant), the
    run writes nothing: the store is left as it was, nothing is committed
    or published and the answer is not a success.  When the request passes
    the stages before the service check, the answer is the 400 response
    "One or more services not found". *)
Theorem unowned_service_is_rejected env req w j data bad :
  body req = Some j ->
  safeParse incidentSchema j = ParseSuccess data ->
  bad ∈ i_serviceIds data ->
  ~ owned (db w) (i_organizationId data) bad ->
  exists resp w',
    POST env req w = (Ok resp, w')
    /\ db w' = db w
    /\ Forall quiet (emitted w w')
    /\ resp_status resp <> 200
    /\ (forall orgId,
          is_Some (truthy (session_userId req)) ->
          truthy (session_orgId req) = Some orgId ->
          faults env OpOrganizationFindFirst = false ->
          organization_found (db w) (i_organizationId data) orgId = true ->
          faults env OpServiceCount = false ->
          resp = services_not_found).
Proof.
  intros Hb Hp Hbad Hno.
  assert (matched (db w) (i_serviceIds data) (i_organizationId data)
          <> length (i_serviceIds data)) as Hm.
  { intros E. apply matched_eq_iff in E as [_ Hall]. by apply Hno, Hall. }
  destruct (POST_runs env req w)
    as [(resp & evs & n & Hrun & Hq & Hst & _)|(o & data' & (Hc & _))].
  - exists resp, (mkWorld (db w) (trace w ++ evs) n).
    split; [done|]. split; [done|].
    split; [by rewrite (emitted_app w _ _ _ evs eq_refl)|]. split; [done|].
    intros orgId [u Hu] Ho F1 Hfound F2.
    destruct (POST_valid_stages env req w u orgId j data Hu Ho Hb Hp)
      as (resp' & w1 & rest & Hrun' & _ & Hst').
    rewrite Hrun in Hrun'. simplify_eq.
    specialize (Hst' F1). rewrite Hfound in Hst'.
    destruct Hst' as (rest' & _ & Hst'). specialize (Hst' F2).
    destruct (decide _) as [E|_]; [done|]. by destruct Hst'.
  - destruct Hc as (_ & _ & (j' & Hb' & Hp') & _ & _ & _ & E & _).
    rewrite Hb in Hb'. injection Hb' as <-.
    rewrite Hp in Hp'. injection Hp' as <-. done.
Qed.

Lemma unowned_service_is_rejected_witness :
  exists resp w',
    POST (sample_env no_faults) (caller (Some (sample_body [cuid1; cuid3])))
         sample_world = (Ok resp, w')
    /\ db w' = db sample_world
    /\ Forall quiet (emitted sample_world w')
    /\ resp_status resp <> 200
    /\ (forall orgId,
          is_Some (truthy (Some "user_1")) ->
          truthy (Some "org_1") = Some orgId ->
          faults (sample_env no_faults) OpOrganizationFindFirst = false ->
          organization_found (db sample_world) cuidO orgId = true ->
          faults (sample_env no_faults) OpServiceCount = false ->
          resp = services_not_found).
Proof.
  apply (unowned_service_is_rejected (sample_env no_faults)
           (caller (Some (sample_body [cuid1; cuid3]))) sample_world
           (sample_body [cuid1; cuid3]) (sample_intent [cuid1; cuid3]) cuid3).
  - reflexivity.
  - reflexivity.
  - apply list_elem_of_further, list_elem_of_here.
  - intros (s & Hs & Ho). vm_compute in Hs. injection Hs as <-. discriminate.
Defined.

(** C4.  In every run, a call to the transport comes after the commit of
    the transaction: the commit precedes it in the order of calls, no
    rollback and no other publish occurs in the run, and the incident it
    carries is new and is read back from the durable store as the very
    payload.  A run whose transaction was rolled back publishes nothing. *)
Theorem publish_follows_commit env req w out w' pre channel event payload
    delivered post :
  POST env req w = (out, w') ->
  emitted w w' = pre ++ EvTrigger channel event payload delivered :: post ->
  (EvTxCommit (db w') ∈ pre)
  /\ (EvTxRollback ∉ emitted w w')
  /\ Forall (fun ev => is_trigger ev = false) (pre ++ post)
  /\ exists h,
      payload = Some h
      /\ incidents (db w) !! h_id h = None
      /\ hydrate (db w') (h_id h) = Some h.
Proof.
  intros Hrun Hev.
  destruct (POST_runs env req w)
    as [(resp & evs & n & Hrun' & Hq & _)|(o & data & (Hc & Hrun'))];
    rewrite Hrun' in Hrun; simplify_eq.
  - rewrite (emitted_app w _ _ _ evs eq_refl) in Hev.
    by apply quiet_no_trigger in Hev.
  - rewrite (emitted_app w _ _ _ _ eq_refl) in *. cbn [db].
    rewrite committed_calls_split in Hev.
    apply (split_at_unique is_trigger) in Hev as (-> & Heq & ->).
    + injection Heq as -> -> -> ->.
      split; [do 6 apply list_elem_of_further; apply list_elem_of_here|].
      split; [apply committed_calls_no_rollback|]. split.
      { destruct (faults env OpTrigger); repeat constructor. }
      destruct (hydrate_created env (db w) (idgen env (idctr w)) data)
        as (h & Hh & Hid & _).
      exists h. rewrite Hid. split; [done|]. split; [|done].
      destruct Hc as (_ & _ & _ & _ & _ & _ & _ & Hok).
      unfold writer_ok in Hok. rewrite !andb_true_iff in Hok.
      destruct Hok as ((((_ & Hnew) & _) & _) & _).
      by apply bool_decide_eq_true in Hnew.
    + done.
    + repeat constructor.
    + destruct (faults env OpTrigger); repeat constructor.
Qed.

Lemma publish_follows_commit_witness :
  let w' :=
    (POST (sample_env no_faults) (caller (Some (sample_body [cuid1; cuid2])))
          sample_world).2 in
  (EvTxCommit (db w') ∈ take 7 (emitted sample_world w'))
  /\ (EvTxRollback ∉ emitted sample_world w')
  /\ Forall (fun ev => is_trigger ev = false)
            (take 7 (emitted sample_world w') ++ [])
  /\ exists h,
      hydrate (db w') "ckincident0000" = Some h
      /\ incidents (db sample_world) !! h_id h = None
      /\ hydrate (db w') (h_id h) = Some h.
Proof.
  apply (publish_follows_commit (sample_env no_faults)
           (caller (Some (sample_body [cuid1; cuid2]))) sample_world
           (POST (sample_env no_faults)
                 (caller (Some (sample_body [cuid1; cuid2]))) sample_world).1
           _ _ "org-ckorganiz0001" "incident-created" _ true []).
  - apply surjective_pairing.
  - vm_compute. reflexivity.
Defined.




(** C6.  Whenever a body violates a rule, the validation fails and the
    failure lists an issue at the path of that rule, whichever other rules
    are violated as well; the handler hands that list to an authenticated
    caller as the details of its 400 answer. *)
Theorem every_violation_is_reported fields c :
  Rules.holds fields c = false ->
  exists errors,
    safeParse incidentSchema (JObj fields) = ParseFailure errors
    /\ (exists issue, issue ∈ errors /\ issue_path issue = Rules.path_of c)
    /\ forall env req w,
        authenticated req -> body req = Some (JObj fields) ->
        POST env req w = (Ok (invalid_data errors), w).
Proof.
  intros H. destruct (schema_reports fields c H) as (issue & Hin & Hpath).
  exists (incidentSchema [] (Some (JObj fields))).1.
  assert (safeParse incidentSchema (JObj fields)
          = ParseFailure (incidentSchema [] (Some (JObj fields))).1) as Hp.
  { apply safeParse_reports. intros E. rewrite E in Hin.
    by apply elem_of_nil in Hin. }
  split; [done|]. split; [eauto|].
  intros env req w Ha Hb. by apply (POST_invalid env req w (JObj fields)).
Qed.

Lemma every_violation_is_reported_witness :
  let reported c :=
    exists errors,
      safeParse incidentSchema (JObj spec_example) = ParseFailure errors
      /\ (exists issue, issue ∈ errors /\ issue_path issue = Rules.path_of c)
      /\ forall env req w,
          authenticated req -> body req = Some (JObj spec_example) ->
          POST env req w = (Ok (invalid_data errors), w) in
  reported Rules.CTitle /\ reported Rules.CDescription
  /\ reported Rules.CStatus /\ reported Rules.CServiceIds.
Proof.
  repeat split; apply (every_violation_is_reported spec_example); reflexivity.
Defined.

(** C7, as the specification states it, fails: the validated list keeps a
    repeated identifier, and a request that lists the same service of the
    organization twice is answered "One or more services not found"
    without the writer being called. *)
Lemma repeated_identifier_counterexample :
  safeParse incidentSchema (sample_body [cuid1; cuid1])
  = ParseSuccess (sample_intent [cuid1; cuid1])
  /\ owned sample_db cuidO cuid1
  /\ POST (sample_env no_faults) (caller (Some (sample_body [cuid1; cuid1])))
          sample_world
     = (Ok services_not_found,
        mkWorld sample_db
          [EvOrganizationFindFirst cuidO "org_1";
           EvServiceCount [cuid1; cuid1] cuidO] 0).
Proof.
  split; [reflexivity|]. split.
  - eexists. split; [vm_compute; reflexivity|reflexivity].
  - vm_compute. reflexivity.
Qed.

(** C7, amended.  The validated list of services is non-empty and keeps
    the order and the repetitions of the body.  The service check compares
    the number of matched services with the length of that list: for a
    request that passed the earlier stages the writer is called exactly when
    the identifiers are pairwise distinct and each names a service of the
    target organization, and otherwise the answer is "One or more services
    not found". *)
Theorem distinct_owned_services_reach_writer env req w u orgId j data :
  truthy (session_userId req) = Some u ->
  truthy (session_orgId req) = Some orgId ->
  body req = Some j ->
  safeParse incidentSchema j = ParseSuccess data ->
  faults env OpOrganizationFindFirst = false ->
  organization_found (db w) (i_organizationId data) orgId = true ->
  faults env OpServiceCount = false ->
  i_serviceIds data <> []
  /\ exists resp w',
      POST env req w = (Ok resp, w')
      /\ (EvTxBegin ∈ emitted w w'
          <-> NoDup (i_serviceIds data)
              /\ forall id, id ∈ i_serviceIds data ->
                           owned (db w) (i_organizationId data) id)
      /\ (EvTxBegin ∉ emitted w w' -> resp = services_not_found).
Proof.
  intros Hu Ho Hb Hp F1 Hfound F2.
  split; [by destruct (safeParse_serviceIds j data Hp)|].
  destruct (POST_valid_stages env req w u orgId j data Hu Ho Hb Hp)
    as (resp & w' & rest & Hrun & Hev & Hst).
  exists resp, w'. split; [done|].
  specialize (Hst F1). rewrite Hfound in Hst.
  destruct Hst as (rest' & -> & Hst). specialize (Hst F2).
  rewrite <- matched_eq_iff. rewrite Hev.
  destruct (decide _) as [E|E].
  - destruct Hst as (rest'' & ->).
    assert (EvTxBegin ∈ EvOrganizationFindFirst (i_organizationId data) orgId
              :: EvServiceCount (i_serviceIds data) (i_organizationId data)
              :: EvTxBegin :: EvIncidentCreate (idgen env (idctr w)) :: rest'')
      as Hin by (do 2 apply list_elem_of_further; apply list_elem_of_here).
    split; [by split|]. intros Hn. by destruct Hn.
  - destruct Hst as (-> & -> & _).
    assert (EvTxBegin ∉ [EvOrganizationFindFirst (i_organizationId data) orgId;
                         EvServiceCount (i_serviceIds data)
                           (i_organizationId data)]) as Hn.
    { intros H. repeat (apply elem_of_cons in H as [H|H]; [discriminate|]).
      by apply elem_of_nil in H. }
    split; [|done]. split; [by intros ?|by intros ?].
Qed.

Lemma distinct_owned_services_reach_writer_witness :
  i_serviceIds (sample_intent [cuid1; cuid2]) <> []
  /\ exists resp w',
      POST (sample_env no_faults) (caller (Some (sample_body [cuid1; cuid2])))
           sample_world = (Ok resp, w')
      /\ (EvTxBegin ∈ emitted sample_world w'
          <-> NoDup [cuid1; cuid2]
              /\ forall id, id ∈ [cuid1; cuid2] -> owned sample_db cuidO id)
      /\ (EvTxBegin ∉ emitted sample_world w' -> resp = services_not_found).
Proof.
  apply (distinct_owned_services_reach_writer (sample_env no_faults)
           (caller (Some (sample_body [cuid1; cuid2]))) sample_world
           "user_1" "org_1" (sample_body [cuid1; cuid2])
           (sample_intent [cuid1; cuid2])); reflexivity.
Defined.

(** C8, as the specification states it, fails: a body that meets the five
    rules on title, description, status, impact and type is rejected when
    its list of services is empty. *)
Lemma five_rules_counterexample :
  let fields :=
    [("title", JStr "API down");
     ("description", JStr "Requests to the API time out.");
     ("status", JStr "investigating"); ("impact", JStr "minor");
     ("type", JStr "incident");
     ("serviceIds", JArr []); ("organizationId", JStr cuidO)] in
  Rules.five_rules fields = true
  /\ safeParse incidentSchema (JObj fields)
     = ParseFailure [mkIssue too_small [Key "serviceIds"]].
Proof. split; reflexivity. Qed.

(** C8, amended.  The Validator accepts a body exactly when it is an object
    that meets the five rules on title, description, status, impact and
    type, carries a non-empty array of valid identifiers under serviceIds
    and a valid identifier under organizationId; the intent then carries the
    body's values, with the type "incident" when the body has none. *)
Theorem validator_accepts_exactly j :
  ((exists data, safeParse incidentSchema j = ParseSuccess data)
   <-> exists fields, j = JObj fields /\ all_rules fields)
  /\ forall data,
      safeParse incidentSchema j = ParseSuccess data ->
      exists fields,
        j = JObj fields
        /\ get_prop fields "title" = Some (JStr (i_title data))
        /\ get_prop fields "description" = Some (JStr (i_description data))
        /\ get_prop fields "serviceIds"
           = Some (JArr (map JStr (i_serviceIds data)))
        /\ get_prop fields "organizationId"
           = Some (JStr (i_organizationId data))
        /\ (get_prop fields "type" = None -> i_type data = incident).
Proof.
  split.
  - split.
    + intros [data H]. destruct (safeParse_data j data H) as (fields & -> & Hall & _).
      exists fields. split; [done|]. by apply all_rules_holds.
    + intros (fields & -> & Hall).
      pose proof (proj1 (all_rules_holds fields) Hall) as Hc.
      apply schema_accepts_iff in Hc as [data Hd].
      exists data. by apply safeParse_success.
  - intros data H.
    destruct (safeParse_data j data H)
      as (fields & -> & _ & Ht & Hd & _ & _ & Hids & Ho & Hty).
    exists fields. repeat (split; [done|]).
    intros E. by rewrite E in Hty.
Qed.

Lemma validator_accepts_exactly_witness :
  exists data, safeParse incidentSchema good_body = ParseSuccess data.
Proof.
  apply (validator_accepts_exactly good_body).
  eexists. split; [reflexivity|].
  split; [reflexivity|]. split; [|reflexivity].
  split; [simpl; lia|]. repeat constructor.
Defined.

(** C9.  A run that answers with status 200 called the transport exactly
    once, on the channel "org-" followed by the organization identity of
    the intent, with the event name "incident-created"; the payload is the
    incident as read back from the store, with the row that was inserted
    and, for each requested service in order, the association together
    with the full record of that service, which belongs to the
    organization; the answer carries the same value. *)
Theorem success_publishes_hydrated_incident env req w resp w' :
  referential (db w) ->
  POST env req w = (Ok resp, w') ->
  resp_status resp = 200 ->
  exists data h,
    (exists j, body req = Some j
               /\ safeParse incidentSchema j = ParseSuccess data)
    /\ List.filter is_trigger (emitted w w')
       = [EvTrigger ("org-" +:+ i_organizationId data) "incident-created"
            (Some h) true]
    /\ resp = json_response (IncidentBody (Some h)) 200
    /\ h_row h = intent_row env data
    /\ Forall2 (fun sid o =>
                 o_incidentId o = h_id h /\ o_serviceId o = sid
                 /\ exists s, services (db w) !! sid = Some s
                              /\ s_organizationId s = i_organizationId data
                              /\ o_service o = Some (sid, s))
              (i_serviceIds data) (h_services h)
    /\ hydrate (db w') (h_id h) = Some h.
Proof.
  intros Hfk Hrun Hst.
  destruct (POST_runs env req w)
    as [(resp' & evs & n & Hrun' & _ & Hne & _)|(o & data & (Hc & Hrun'))];
    rewrite Hrun' in Hrun; simplify_eq.
  destruct (faults env OpTrigger) eqn:F; [discriminate|].
  destruct Hc as (_ & _ & Hbody & _ & _ & _ & Hm & Hok).
  unfold writer_ok in Hok. rewrite !andb_true_iff in Hok.
  destruct Hok as ((((_ & Hnew) & _) & _) & _).
  apply bool_decide_eq_true in Hnew.
  apply matched_eq_iff in Hm as [_ Hall].
  pose proof (hydrate_created_joined env (db w) (idgen env (idctr w)) data
                Hfk Hnew) as Hh.
  exists data, (mkHydrated (idgen env (idctr w)) (intent_row env data)
                  (joined (db w) (idgen env (idctr w)) (i_serviceIds data))).
  split; [done|]. rewrite (emitted_app w _ _ _ _ eq_refl). cbn [db].
  split. { unfold committed_calls. rewrite F, Hh. reflexivity. }
  split. { unfold success. by rewrite Hh. }
  split; [done|]. split; [|done].
  cbn [h_services h_id]. unfold joined. apply Forall2_fmap_r.
  apply Forall_Forall2_diag, Forall_forall. intros sid Hsid.
  destruct (Hall sid Hsid) as (s & Hs & Ho). cbn. rewrite Hs. eauto 8.
Qed.

Lemma success_publishes_hydrated_incident_witness :
  let run :=
    POST (sample_env no_faults) (caller (Some (sample_body [cuid1; cuid2])))
         sample_world in
  exists resp data h,
    run.1 = Ok resp
    /\ List.filter is_trigger (emitted sample_world run.2)
       = [EvTrigger "org-ckorganiz0001" "incident-created" (Some h) true]
    /\ resp = json_response (IncidentBody (Some h)) 200
    /\ i_serviceIds data = [cuid1; cuid2]
    /\ map o_service (h_services h)
       = [Some (cuid1, mkService "API" None cuidO);
          Some (cuid2, mkService "Website" (Some "Public site") cuidO)].
Proof.
  intros run.
  destruct (success_publishes_hydrated_incident (sample_env no_faults)
              (caller (Some (sample_body [cuid1; cuid2]))) sample_world
              (json_response
                 (IncidentBody
                    (hydrate (created (sample_env no_faults) sample_db
                                "ckincident0000" (sample_intent [cuid1; cuid2]))
                             "ckincident0000")) 200)
              run.2)
    as (data & h & (j & Hb & Hp) & Hev & Hresp & _ & _ & Hread).
  - intros r Hr. by apply elem_of_nil in Hr.
  - vm_compute. reflexivity.
  - reflexivity.
  - injection Hb as <-. vm_compute in Hp. injection Hp as <-.
    exists (json_response (IncidentBody (Some h)) 200),
      (sample_intent [cuid1; cuid2]), h.
    split; [rewrite <- Hresp; vm_compute; reflexivity|].
    split; [exact Hev|]. split; [reflexivity|]. split; [reflexivity|].
    vm_compute in Hresp. injection Hresp as <-. reflexivity.
Defined.

(** C10.  An authenticated request whose body is not parseable as JSON is
    answered with the generic internal error (status 500), not with an
    itemized validation failure; the store is left as it was and no store
    call is made: the only call of the run is the error log. *)
Theorem unparseable_body_is_internal_error env req w :
  authenticated req ->
  body req = None ->
  exists w',
    POST env req w = (Ok internal_error, w')
    /\ db w' = db w
    /\ emitted w w' = [EvConsoleError "[INCIDENTS_POST]" SyntaxError]
    /\ forall errors, internal_error <> invalid_data errors.
Proof.
  intros Ha Hb. eexists. rewrite POST_unparseable by done.
  split; [reflexivity|]. split; [reflexivity|].
  split; [by apply emitted_app|]. intros errors. discriminate.
Qed.

Lemma unparseable_body_is_internal_error_witness :
  exists w',
    POST (sample_env no_faults) (caller None) sample_world
    = (Ok internal_error, w')
    /\ db w' = db sample_world
    /\ emitted sample_world w' = [EvConsoleError "[INCIDENTS_POST]" SyntaxError]
    /\ forall errors, internal_error <> invalid_data errors.
Proof.
  apply (unparseable_body_is_internal_error (sample_env no_faults)
           (caller None) sample_world).
  - split; eexists; reflexivity.
  - reflexivity.
Defined.

(** * The incident form:
      [src/frontend/src/components/incidents/incident-form.tsx] *)

(** ** The form schema *)

(** [IncidentFormValues] *)
Record FormValues : Type := mkFormValues {
  f_title : string;
  f_description : string;
  f_status : Status;
  f_impact : Impact;
  f_serviceIds : list string
}.

Definition form_serviceIds_schema : Schema (list string) :=
  z_array_min (z_string []) 1.

Definition build_values (t d : option string) (st : option Status)
    (im : option Impact) (ids : option (list string)) : option FormValues :=
  match t, d, st, im, ids with
  | Some t, Some d, Some s, Some i, Some ids => Some (mkFormValues t d s i ids)
  | _, _, _, _, _ => None
  end.

(** [incidentFormSchema]: the rules of the route's schema on title,
    description, status and impact; the services are any non-empty array
    of strings; there is no organization and no type. *)
Definition incidentFormSchema : Schema FormValues :=
  fun path v =>
    match v with
    | Some (JObj fields) =>
        let at_key (A : Type) (s : Schema A) (k : string) :=
          s (path ++ [Key k]) (get_prop fields k) in
        let '(e1, title) := at_key _ title_schema "title" in
        let '(e2, description) := at_key _ description_schema "description" in
        let '(e3, status) := at_key _ status_schema "status" in
        let '(e4, impact) := at_key _ impact_schema "impact" in
        let '(e5, serviceIds) := at_key _ form_serviceIds_schema "serviceIds" in
        (e1 ++ e2 ++ e3 ++ e4 ++ e5,
         build_values title description status impact serviceIds)
    | _ => ([mkIssue invalid_type path], None)
    end.

(** The literal a constructor was parsed from; it is what the store and
    the request bodies hold. *)
Definition status_name (s : Status) : string :=
  match s with
  | investigating => "investigating"
  | identified => "identified"
  | monitoring => "monitoring"
  | resolved => "resolved"
  end.

Definition impact_name (i : Impact) : string :=
  match i with
  | minor => "minor"
  | major => "major"
  | critical => "critical"
  end.

Definition type_name (t : IncidentType) : string :=
  match t with
  | incident => "incident"
  | maintenance => "maintenance"
  end.

(** The object [{ ...data, organizationId, type: incidentType }] that
    [onSubmit] serializes into the request body. *)
Definition submit_fields (data : FormValues) (organizationId : string)
    (incidentType : IncidentType) : list (string * json) :=
  [("title", JStr (f_title data));
   ("description", JStr (f_description data));
   ("status", JStr (status_name (f_status data)));
   ("impact", JStr (impact_name (f_impact data)));
   ("serviceIds", JArr (map JStr (f_serviceIds data)));
   ("organizationId", JStr organizationId);
   ("type", JStr (type_name incidentType))].

(** What the form schema asks of an object, field by field. *)
Definition form_rules (fields : list (string * json)) (data : FormValues)
  : Prop :=
  get_prop fields "title" = Some (JStr (f_title data))
  /\ Rules.text_between 1 100 (get_prop fields "title") = true
  /\ get_prop fields "description" = Some (JStr (f_description data))
  /\ Rules.text_between 10 1000 (get_prop fields "description") = true
  /\ (exists s, get_prop fields "status" = Some (JStr s)
               /\ enum_lookup status_values s = Some (f_status data))
  /\ (exists s, get_prop fields "impact" = Some (JStr s)
               /\ enum_lookup impact_values s = Some (f_impact data))
  /\ get_prop fields "serviceIds" = Some (JArr (map JStr (f_serviceIds data)))
  /\ f_serviceIds data <> [].

Section FormSchema.

Lemma status_name_lookup s : enum_lookup status_values (status_name s) = Some s.
Proof. by destruct s. Qed.

Lemma impact_name_lookup i : enum_lookup impact_values (impact_name i) = Some i.
Proof. by destruct i. Qed.

Lemma type_name_lookup t : enum_lookup type_values (type_name t) = Some t.
Proof. by destruct t. Qed.

Lemma status_lookup_name s a :
  enum_lookup status_values s = Some a -> status_name a = s.
Proof.
  unfold status_values. cbn [enum_lookup].
  repeat match goal with
         | |- context [String.eqb ?x s] =>
             destruct (String.eqb_spec x s) as [<-|_];
             [intros H; by simplify_eq|]
         end.
  intros H. discriminate H.
Qed.

Lemma impact_lookup_name s a :
  enum_lookup impact_values s = Some a -> impact_name a = s.
Proof.
  unfold impact_values. cbn [enum_lookup].
  repeat match goal with
         | |- context [String.eqb ?x s] =>
             destruct (String.eqb_spec x s) as [<-|_];
             [intros H; by simplify_eq|]
         end.
  intros H. discriminate H.
Qed.

Lemma type_lookup_name s a :
  enum_lookup type_values s = Some a -> type_name a = s.
Proof.
  unfold type_values. cbn [enum_lookup].
  repeat match goal with
         | |- context [String.eqb ?x s] =>
             destruct (String.eqb_spec x s) as [<-|_];
             [intros H; by simplify_eq|]
         end.
  intros H. discriminate H.
Qed.

Lemma text_schema_accepts lo hi path s :
  lo <= hi ->
  Rules.text_between lo hi (Some (JStr s)) = true ->
  z_string [CkMin lo; CkMax hi] path (Some (JStr s)) = ([], Some s).
Proof.
  intros Hle H.
  destruct (text_schema_spec lo hi path (Some (JStr s)) Hle) as [Hok _].
  destruct (Hok H) as [He _]. cbn in He |- *. by rewrite He.
Qed.

Lemma text_schema_clean lo hi path v :
  lo <= hi ->
  (z_string [CkMin lo; CkMax hi] path v).1 = [] ->
  Rules.text_between lo hi v = true.
Proof.
  intros Hle H. destruct (Rules.text_between lo hi v) eqn:E; [done|].
  destruct (text_schema_spec lo hi path v Hle) as [_ Hko].
  destruct (Hko E) as (i & Hi & _). congruence.
Qed.

Lemma enum_schema_accepts {A} (table : list (string * A)) path s a :
  enum_lookup table s = Some a ->
  z_enum table path (Some (JStr s)) = ([], Some a).
Proof. intros H. cbn. by rewrite H. Qed.

Lemma parse_strings path start (l : list string) :
  parse_items (z_string []) path start (map JStr l) = ([], Some l).
Proof.
  revert start. induction l as [|x l IH]; intros start; [done|].
  cbn [map parse_items]. rewrite IH. reflexivity.
Qed.

Lemma form_serviceIds_accepts path (l : list string) :
  l <> [] ->
  form_serviceIds_schema path (Some (JArr (map JStr l))) = ([], Some l).
Proof.
  intros Hne. unfold form_serviceIds_schema, z_array_min.
  rewrite parse_strings, length_map.
  destruct l as [|x l]; [done|]. reflexivity.
Qed.

Lemma form_serviceIds_value path v l :
  form_serviceIds_schema path v = ([], Some l) ->
  v = Some (JArr (map JStr l)) /\ l <> [].
Proof.
  unfold form_serviceIds_schema, z_array_min.
  destruct v as [[| | | |items|]|]; try discriminate.
  pose proof (parse_items_value [] path 0 items) as Hv.
  destruct (parse_items (z_string []) path 0 items) as [e o].
  intros H. injection H as He ->. apply app_eq_nil in He as [Hs _].
  rewrite (Hv l eq_refl) in *. split; [done|].
  intros ->. discriminate.
Qed.

Lemma incidentFormSchema_object path fields :
  let at_key {A} (s : Schema A) (k : string) :=
    s (path ++ [Key k]) (get_prop fields k) in
  incidentFormSchema path (Some (JObj fields))
  = ((at_key title_schema "title").1 ++ (at_key description_schema "description").1
     ++ (at_key status_schema "status").1 ++ (at_key impact_schema "impact").1
     ++ (at_key form_serviceIds_schema "serviceIds").1,
     build_values (at_key title_schema "title").2
       (at_key description_schema "description").2
       (at_key status_schema "status").2 (at_key impact_schema "impact").2
       (at_key form_serviceIds_schema "serviceIds").2).
Proof.
  unfold incidentFormSchema. simpl.
  destruct (title_schema _ _), (description_schema _ _), (status_schema _ _),
    (impact_schema _ _), (form_serviceIds_schema _ _).
  reflexivity.
Qed.

(** The form schema accepts an object exactly when the object meets the
    form's rules, and the values are then those of the object. *)
Lemma form_accepts_iff fields data :
  safeParse incidentFormSchema (JObj fields) = ParseSuccess data
  <-> form_rules fields data.
Proof.
  rewrite safeParse_success, incidentFormSchema_object. cbn [app]. split.
  - intros H. injection H as He Hv.
    repeat (apply app_eq_nil in He as [? He]).
    unfold build_values in Hv.
    destruct (title_schema _ _) as [e1 [t|]] eqn:E1; [|discriminate].
    destruct (description_schema _ _) as [e2 [d|]] eqn:E2; [|discriminate].
    destruct (status_schema _ _) as [e3 [st|]] eqn:E3; [|discriminate].
    destruct (impact_schema _ _) as [e4 [im|]] eqn:E4; [|discriminate].
    destruct (form_serviceIds_schema _ _) as [e5 [ids|]] eqn:E5; [|discriminate].
    cbn [fst snd] in *. simplify_eq. cbn [f_title f_description f_status
      f_impact f_serviceIds].
    pose proof (z_string_value _ _ _ t (f_equal snd E1)) as Ht.
    pose proof (z_string_value _ _ _ d (f_equal snd E2)) as Hd.
    pose proof (z_enum_value _ _ _ st (f_equal snd E3)) as Hst.
    pose proof (z_enum_value _ _ _ im (f_equal snd E4)) as Him.
    destruct (form_serviceIds_value _ _ _ E5) as [Hids Hne].
    pose proof (text_schema_clean 1 100 _ _ ltac:(lia) (f_equal fst E1)).
    pose proof (text_schema_clean 10 1000 _ _ ltac:(lia) (f_equal fst E2)).
    unfold form_rules. cbn [f_title f_description f_status f_impact
      f_serviceIds]. done.
  - intros (Ht & Htb & Hd & Hdb & (s1 & Hs1 & Hl1) & (s2 & Hs2 & Hl2)
            & Hids & Hne).
    rewrite Ht in Htb. rewrite Hd in Hdb.
    rewrite Ht, Hd, Hs1, Hs2, Hids.
    unfold title_schema, description_schema, status_schema, impact_schema.
    rewrite (text_schema_accepts 1 100) by (done || lia).
    rewrite (text_schema_accepts 10 1000) by (done || lia).
    rewrite (enum_schema_accepts status_values _ s1 _ Hl1).
    rewrite (enum_schema_accepts impact_values _ s2 _ Hl2).
    rewrite form_serviceIds_accepts by done.
    by destruct data.
Qed.

Lemma text_schema_total lo hi path v :
  lo <= hi ->
  (z_string [CkMin lo; CkMax hi] path v).1 = [] ->
  is_Some (z_string [CkMin lo; CkMax hi] path v).2.
Proof.
  intros Hle H. destruct (text_schema_spec lo hi path v Hle) as [Hok _].
  apply Hok. by apply (text_schema_clean lo hi path).
Qed.

Lemma enum_schema_total {A} (table : list (string * A)) path v :
  (z_enum table path v).1 = [] -> is_Some (z_enum table path v).2.
Proof.
  destruct v as [[| | |s| |]|]; try discriminate.
  cbn. destruct (enum_lookup table s); [eauto|discriminate].
Qed.

Lemma parse_strings_total path start items :
  (parse_items (z_string []) path start items).1 = [] ->
  is_Some (parse_items (z_string []) path start items).2.
Proof.
  revert start. induction items as [|x items IH]; intros start; [eauto|].
  cbn [parse_items]. specialize (IH (S start)).
  destruct (parse_items (z_string []) path (S start) items) as [e2 v2].
  cbn [fst snd] in IH.
  destruct x; cbn; try discriminate.
  intros H. destruct (IH H) as [l Hl]. subst. eauto.
Qed.

Lemma form_serviceIds_total path v :
  (form_serviceIds_schema path v).1 = [] ->
  is_Some (form_serviceIds_schema path v).2.
Proof.
  unfold form_serviceIds_schema, z_array_min.
  destruct v as [[| | | |items|]|]; try discriminate.
  pose proof (parse_strings_total path 0 items) as Ht.
  destruct (parse_items (z_string []) path 0 items) as [e o].
  cbn [fst snd] in *. intros H. apply app_eq_nil in H as [_ ->]. by apply Ht.
Qed.

(** The form schema never fails without an issue. *)
Lemma form_failure_has_issue j :
  safeParse incidentFormSchema j <> ParseFailure [].
Proof.
  unfold safeParse. intros H.
  destruct (incidentFormSchema [] (Some j)) as [[|i e] [a|]] eqn:E;
    try discriminate.
  destruct j as [| | | | |fields]; try discriminate.
  rewrite incidentFormSchema_object in E. cbn [app] in E.
  injection E as He Hv. repeat (apply app_eq_nil in He as [? He]).
  destruct (text_schema_total 1 100 _ _ ltac:(lia) H0) as [t Ht].
  destruct (text_schema_total 10 1000 _ _ ltac:(lia) H1) as [d Hd].
  destruct (enum_schema_total _ _ _ H2) as [st Hst].
  destruct (enum_schema_total _ _ _ H3) as [im Him].
  destruct (form_serviceIds_total _ _ He) as [ids Hids].
  unfold title_schema, description_schema, status_schema, impact_schema in Hv.
  rewrite Ht, Hd, Hst, Him, Hids in Hv. discriminate.
Qed.

End FormSchema.

(** The values of an intent that the form knows of. *)
Definition intent_values (data : Intent) : FormValues :=
  mkFormValues (i_title data) (i_description data) (i_status data)
               (i_impact data) (i_serviceIds data).

(** The intent the route reads off a submitted form. *)
Definition submitted_intent (data : FormValues) (organizationId : string)
    (incidentType : IncidentType) : Intent :=
  mkIntent (f_title data) (f_description data) (f_status data)
           (f_impact data) (f_serviceIds data) organizationId incidentType.

Lemma map_JStr_inj (l1 l2 : list string) :
  map JStr l1 = map JStr l2 -> l1 = l2.
Proof.
  revert l2. induction l1 as [|x l1 IH]; intros [|y l2] H; try done.
  injection H as -> H. by rewrite (IH l2 H).
Qed.

Lemma form_accepted_object raw data :
  safeParse incidentFormSchema raw = ParseSuccess data ->
  exists fields, raw = JObj fields /\ form_rules fields data.
Proof.
  intros H. destruct raw as [| | | | |fields];
    try (apply safeParse_success in H; discriminate).
  exists fields. split; [done|]. by apply form_accepts_iff.
Qed.

Lemma submit_fields_rules data org ty fields :
  form_rules fields data ->
  all_rules (submit_fields data org ty)
  <-> is_cuid org = true /\ Forall (fun id => is_cuid id = true) (f_serviceIds data).
Proof.
  intros (Ht & Htb & Hd & Hdb & _ & _ & _ & Hne).
  rewrite Ht in Htb. rewrite Hd in Hdb.
  unfold all_rules, Rules.five_rules, Rules.holds, submit_fields.
  cbn [get_prop String.eqb Ascii.eqb Bool.eqb].
  rewrite Htb, Hdb. unfold Rules.one_of.
  rewrite status_name_lookup, impact_name_lookup, type_name_lookup.
  rewrite !bool_decide_eq_true_2 by eauto. cbn [andb items_valid Rules.identifier].
  rewrite length_map, Forall_map. cbn [Rules.identifier].
  split.
  - intros (_ & (_ & HF) & Ho). done.
  - intros (Ho & HF). split; [done|]. split; [|done]. split; [|done].
    destruct (f_serviceIds data); [done|]. simpl. lia.
Qed.

Lemma submit_fields_intent data org ty intent :
  safeParse incidentSchema (JObj (submit_fields data org ty))
  = ParseSuccess intent ->
  intent = submitted_intent data org ty.
Proof.
  intros Hi.
  destruct (safeParse_data _ intent Hi)
    as (fields' & Hf & _ & Ht & Hd & (s1 & Hs1 & Hl1) & (s2 & Hs2 & Hl2)
        & Hids & Ho & Hty).
  injection Hf as <-. unfold submit_fields in *.
  cbn [get_prop String.eqb Ascii.eqb Bool.eqb] in *.
  destruct Hty as (s3 & Hs3 & Hl3). simplify_eq.
  rewrite status_name_lookup in Hl1. rewrite impact_name_lookup in Hl2.
  rewrite type_name_lookup in Hl3.
  apply map_JStr_inj in Hids.
  destruct intent. unfold submitted_intent. cbn in *. by simplify_eq.
Qed.

(** X1.  Whatever the route's schema accepts, the form's schema accepts
    too, with the same title, description, status, impact and services. *)
Theorem route_accepted_is_form_accepted j data :
  safeParse incidentSchema j = ParseSuccess data ->
  safeParse incidentFormSchema j = ParseSuccess (intent_values data).
Proof.
  intros H. pose proof (safeParse_serviceIds j data H) as [Hne _].
  destruct (safeParse_data j data H)
    as (fields & -> & Hall & Ht & Hd & Hst & Him & Hids & _).
  apply form_accepts_iff. unfold form_rules, intent_values.
  cbn [f_title f_description f_status f_impact f_serviceIds].
  split; [done|]. split; [apply (Hall Rules.CTitle)|].
  split; [done|]. split; [apply (Hall Rules.CDescription)|]. done.
Qed.

Lemma route_accepted_is_form_accepted_witness :
  safeParse incidentFormSchema good_body
  = ParseSuccess
      (mkFormValues "API down" "Requests to the API time out."
                    investigating major [cuid1; cuid2]).
Proof.
  apply (route_accepted_is_form_accepted good_body
           (mkIntent "API down" "Requests to the API time out."
                     investigating major [cuid1; cuid2] cuidO incident)).
  reflexivity.
Defined.

(** X2.  The body that [onSubmit] builds from values the form accepted is
    accepted by the route's schema exactly when the organization identity
    and every selected service identity are valid identifiers, and the
    intent then carries the form's values, the organization and the type
    of the form. *)
Theorem form_submission_meets_route raw data org ty :
  safeParse incidentFormSchema raw = ParseSuccess data ->
  ((exists intent,
       safeParse incidentSchema (JObj (submit_fields data org ty))
       = ParseSuccess intent)
   <-> is_cuid org = true
       /\ Forall (fun id => is_cuid id = true) (f_serviceIds data))
  /\ forall intent,
      safeParse incidentSchema (JObj (submit_fields data org ty))
      = ParseSuccess intent ->
      intent = submitted_intent data org ty.
Proof.
  intros H. destruct (form_accepted_object raw data H) as (fields & -> & Hr).
  split.
  - rewrite <- (submit_fields_rules data org ty fields Hr).
    rewrite all_rules_holds, schema_accepts_iff.
    by setoid_rewrite safeParse_success.
  - apply submit_fields_intent.
Qed.

Lemma form_submission_meets_route_witness :
  let data :=
    mkFormValues "API down" "Requests to the API time out."
                 investigating major [cuid1; cuid2] in
  (exists intent,
      safeParse incidentSchema (JObj (submit_fields data cuidO maintenance))
      = ParseSuccess intent)
  <-> is_cuid cuidO = true
      /\ Forall (fun id => is_cuid id = true) [cuid1; cuid2].
Proof.
  intros data.
  apply (form_submission_meets_route good_body data cuidO maintenance).
  reflexivity.
Defined.

(** ** The service checkboxes *)

(** [field.value?.includes(service.id)] *)
Definition includes (value : list string) (id : string) : bool :=
  bool_decide (id ∈ value).

(** The [onCheckedChange] handler of the checkbox of service [id]: the new
    value of the [serviceIds] field. *)
Definition onCheckedChange (value : list string) (id : string)
    (checked : bool) : list string :=
  if checked then value ++ [id] else filter (fun v => v <> id) value.

(** A click on the checkbox of service [id]: the checkbox reports the
    opposite of the state it shows. *)
Definition click (value : list string) (id : string) : list string :=
  onCheckedChange value id (negb (includes value id)).

(** Unticking a service removes every occurrence of it and nothing
    else: the service is no longer included, every other service is
    included exactly as before, the remaining ones keep their order, and
    no repetition is introduced. *)
Lemma untick_removes_service value id :
  let value' := onCheckedChange value id false in
  includes value' id = false
  /\ (forall x, x <> id -> includes value' x = includes value x)
  /\ value' `sublist_of` value
  /\ (NoDup value -> NoDup value').
Proof.
  cbn [onCheckedChange]. unfold includes. split; [|split; [|split]].
  - apply bool_decide_eq_false_2. rewrite list_elem_of_filter. tauto.
  - intros x Hx. apply bool_decide_ext. rewrite list_elem_of_filter. tauto.
  - apply sublist_filter.
  - apply NoDup_filter.
Qed.

(** Ticking a service appends it at the end: it is then included,
    the others are included as before, and the list is free of
    repetitions exactly when it was so before and did not hold the
    service yet. *)
Lemma tick_appends_service value id :
  let value' := onCheckedChange value id true in
  value' = value ++ [id]
  /\ includes value' id = true
  /\ (forall x, x <> id -> includes value' x = includes value x)
  /\ (NoDup value' <-> NoDup value /\ includes value id = false).
Proof.
  cbn [onCheckedChange]. unfold includes. split; [done|]. split; [|split].
  - apply bool_decide_eq_true_2, elem_of_app. right. apply list_elem_of_here.
  - intros x Hx. apply bool_decide_ext. rewrite elem_of_app, list_elem_of_singleton.
    tauto.
  - rewrite NoDup_app, bool_decide_eq_false. split.
    + intros (Hv & Hd & _). split; [done|]. intros Hin.
      apply (Hd id Hin), list_elem_of_here.
    + intros (Hv & Hn). split; [done|]. split; [|apply NoDup_singleton].
      intros x Hx Hx'. apply list_elem_of_singleton in Hx'. by subst.
Qed.

(** X3.  Ticking a service that was not selected and unticking it again
    gives back the selection as it was. *)
Theorem tick_then_untick value id :
  includes value id = false ->
  onCheckedChange (onCheckedChange value id true) id false = value.
Proof.
  unfold includes. rewrite bool_decide_eq_false. intros Hn.
  cbn [onCheckedChange]. rewrite filter_app.
  rewrite filter_cons_False by (intros H; by apply H).
  rewrite filter_nil, app_nil_r.
  induction value as [|x value IH]; [done|].
  rewrite not_elem_of_cons in Hn. destruct Hn as [Hx Hn].
  rewrite filter_cons_True by done. by rewrite IH.
Qed.

Lemma tick_then_untick_witness :
  onCheckedChange (onCheckedChange [cuid1] cuid2 true) cuid2 false = [cuid1].
Proof. apply (tick_then_untick [cuid1] cuid2). reflexivity. Defined.

Lemma click_includes value id x :
  includes (click value id) x
  = if decide (x = id) then negb (includes value id) else includes value x.
Proof.
  unfold click. destruct (includes value id) eqn:E; cbn [negb].
  - destruct (untick_removes_service value id) as (H1 & H2 & _).
    destruct (decide (x = id)) as [->|Hx]; [done|]. by apply H2.
  - destruct (tick_appends_service value id) as (_ & H1 & H2 & _).
    destruct (decide (x = id)) as [->|Hx]; [done|]. by apply H2.
Qed.

Lemma click_NoDup value id : NoDup value -> NoDup (click value id).
Proof.
  intros Hv. unfold click. destruct (includes value id) eqn:E; cbn [negb].
  - by apply (untick_removes_service value id).
  - by apply (tick_appends_service value id).
Qed.

(** X4.  Whatever sequence of checkboxes is clicked, a selection free of
    repetitions stays free of repetitions, every selected service was
    selected before or was clicked, and a service that was not clicked
    keeps its state. *)
Theorem clicks_keep_selection_distinct value ids :
  NoDup value ->
  let value' := foldl click value ids in
  NoDup value'
  /\ (forall x, includes value' x = true ->
                includes value x = true \/ x ∈ ids)
  /\ (forall x, x ∉ ids -> includes value' x = includes value x).
Proof.
  revert value. induction ids as [|id ids IH]; intros value Hv; cbn [foldl].
  - split; [done|]. split; [by left|done].
  - destruct (IH (click value id) (click_NoDup value id Hv)) as (H1 & H2 & H3).
    split; [done|]. split.
    + intros x Hx. destruct (H2 x Hx) as [Hc|Hin].
      * rewrite click_includes in Hc. destruct (decide (x = id)) as [->|_].
        -- right. apply list_elem_of_here.
        -- by left.
      * right. by apply list_elem_of_further.
    + intros x Hx. rewrite not_elem_of_cons in Hx. destruct Hx as [Hne Hx].
      rewrite (H3 x Hx), click_includes. by destruct (decide (x = id)).
Qed.

Lemma clicks_keep_selection_distinct_witness :
  NoDup (foldl click [cuid1] [cuid2; cuid1; cuid2; cuid3])
  /\ (forall x, includes (foldl click [cuid1] [cuid2; cuid1; cuid2; cuid3]) x
                = true ->
                includes [cuid1] x = true \/ x ∈ [cuid2; cuid1; cuid2; cuid3])
  /\ (forall x, x ∉ [cuid2; cuid1; cuid2; cuid3] ->
                includes (foldl click [cuid1] [cuid2; cuid1; cuid2; cuid3]) x
                = includes [cuid1] x).
Proof.
  apply (clicks_keep_selection_distinct [cuid1] [cuid2; cuid1; cuid2; cuid3]).
  apply NoDup_singleton.
Defined.

(** ** Submitting the form *)

(** The [incident] prop of the form. *)
Record IncidentProp : Type := mkIncidentProp {
  p_id : string;
  p_title : string;
  p_description : string;
  p_status : string;
  p_impact : string;
  p_services : list string
}.

Record ServiceItem : Type := mkServiceItem {
  sv_id : string;
  sv_name : string;
  sv_description : option string
}.

(** [IncidentFormProps]; an absent [incidentType] stands for "incident". *)
Record FormProps : Type := mkFormProps {
  fp_organizationId : string;
  fp_services : list ServiceItem;
  fp_incident : option IncidentProp;
  fp_incidentType : option IncidentType
}.

(** What the controls of the form hold. *)
Record FormState : Type := mkFormState {
  st_title : string;
  st_description : string;
  st_status : string;
  st_impact : string;
  st_serviceIds : list string
}.

(** [s || d] on strings: the empty string is falsy. *)
Definition or_else (s d : string) : string :=
  if String.eqb s "" then d else s.

(** The [defaultValues] of [useForm]. *)
Definition defaultValues (incident : option IncidentProp) : FormState :=
  match incident with
  | Some i =>
      mkFormState (or_else (p_title i) "") (or_else (p_description i) "")
                  (or_else (p_status i) "investigating")
                  (or_else (p_impact i) "minor") (p_services i)
  | None => mkFormState "" "" "investigating" "minor" []
  end.

(** The values handed to the resolver. *)
Definition state_fields (st : FormState) : list (string * json) :=
  [("title", JStr (st_title st)); ("description", JStr (st_description st));
   ("status", JStr (st_status st)); ("impact", JStr (st_impact st));
   ("serviceIds", JArr (map JStr (st_serviceIds st)))].

Inductive Method : Type := HttpPost | HttpPatch.

Record HttpRequest : Type := mkHttpRequest {
  hr_url : string;
  hr_method : Method;
  hr_body : json
}.

(** What [fetch] resolves to, or the message it rejects with.  The body of
    a response is the value [response.json()] resolves to, or the message
    it rejects with. *)
Inductive FetchResult : Type :=
| NetworkError (message : string)
| Responded (status : nat) (statusText : string) (parsed : string + json).

Record Toast : Type := mkToast {
  toast_title : string;
  toast_description : string;
  toast_destructive : bool
}.

(** What the user and the browser see of a submission, in order. *)
Inductive UiEvent : Type :=
| UiSetIsLoading (b : bool)
| UiFetch (r : HttpRequest)
| UiToast (t : Toast)
| UiRouterPush (url : string)
| UiRouterRefresh
| UiConsoleError (message : string)
| UiFieldErrors (errors : list ZodIssue).

Definition is_fetch (ev : UiEvent) : bool :=
  match ev with UiFetch _ => true | _ => false end.

Section Form.

Context {Srv : Type}.

(** The server behind [fetch]. *)
Variable fetch : HttpRequest -> Srv -> FetchResult * Srv.

(** The page in the browser: the [isLoading] state of the form, what
    happened so far, and the server it talks to. *)
Record Client : Type := mkClient {
  isLoading : bool;
  ui_log : list UiEvent;
  server : Srv
}.

(** A computation of the form either returns or throws an [Error] with a
    message. *)
Definition U (A : Type) : Type := Client -> (A + string) * Client.

Definition u_ret {A} (a : A) : U A := fun c => (inl a, c).

Definition u_throw {A} (message : string) : U A := fun c => (inr message, c).

Definition u_bind {A B} (m : U A) (k : A -> U B) : U B :=
  fun c =>
    match m c with
    | (inl a, c') => k a c'
    | (inr e, c') => (inr e, c')
    end.

Notation "'do*' x ':=' m 'in' k" := (u_bind m (fun x => k))
  (at level 10, x name, m at level 100, k at level 200).

(** [try { body } catch (error) { handler } finally { final }] *)
Definition u_try_catch_finally (body : U unit) (handler : string -> U unit)
    (final : U unit) : U unit :=
  fun c =>
    match body c with
    | (inl tt, c') => final c'
    | (inr e, c') =>
        match handler e c' with
        | (inl tt, c'') => final c''
        | (inr e', c'') =>
            match final c'' with
            | (inl tt, c3) => (inr e', c3)
            | (inr e3, c3) => (inr e3, c3)
            end
        end
    end.

Definition u_emit (ev : UiEvent) : U unit :=
  fun c => (inl tt, mkClient (isLoading c) (ui_log c ++ [ev]) (server c)).

Definition setIsLoading (b : bool) : U unit :=
  fun c => (inl tt, mkClient b (ui_log c ++ [UiSetIsLoading b]) (server c)).

(** [await fetch(endpoint, { method, headers, body })] *)
Definition u_fetch (r : HttpRequest) : U (nat * string * (string + json)) :=
  fun c =>
    let c1 := mkClient (isLoading c) (ui_log c ++ [UiFetch r]) (server c) in
    match fetch r (server c) with
    | (NetworkError message, s') =>
        (inr message, mkClient (isLoading c1) (ui_log c1) s')
    | (Responded status statusText parsed, s') =>
        (inl (status, statusText, parsed),
         mkClient (isLoading c1) (ui_log c1) s')
    end.

(** [response.ok] *)
Definition response_ok (status : nat) : bool :=
  Nat.leb 200 status && Nat.leb status 299.

Definition incident_type (props : FormProps) : IncidentType :=
  match fp_incidentType props with
  | Some t => t
  | None => incident
  end.

Definition endpoint (props : FormProps) : string :=
  match fp_incident props with
  | Some i => "/api/incidents/" +:+ p_id i
  | None => "/api/incidents"
  end.

Definition method (props : FormProps) : Method :=
  match fp_incident props with
  | Some _ => HttpPatch
  | None => HttpPost
  end.

Definition success_toast (props : FormProps) : Toast :=
  match fp_incident props with
  | Some _ =>
      mkToast "Incident updated"
              "Your incident has been updated successfully." false
  | None =>
      mkToast "Incident created"
              "Your new incident has been created successfully." false
  end.

(** Every rejection in [onSubmit] is an [Error], so the description of the
    toast is its message. *)
Definition error_toast (message : string) : Toast :=
  mkToast "Error" message true.

Definition onSubmit (props : FormProps) (data : FormValues) : U unit :=
  u_try_catch_finally
    (do* _ := setIsLoading true in
     do* response :=
       u_fetch (mkHttpRequest (endpoint props) (method props)
                  (JObj (submit_fields data (fp_organizationId props)
                           (incident_type props)))) in
     let '(status, statusText, parsed) := response in
     if negb (response_ok status) then u_throw statusText
     else
       do* result :=
         (match parsed with
          | inr j => u_ret j
          | inl message => u_throw message
          end) in
       do* _ := u_emit (UiToast (success_toast props)) in
       do* _ := u_emit (UiRouterPush "/dashboard/incidents") in
       u_emit UiRouterRefresh)
    (fun error =>
       do* _ := u_emit (UiConsoleError error) in
       u_emit (UiToast (error_toast error)))
    (setIsLoading false).

(** [form.handleSubmit(onSubmit)]: the resolver runs the form schema on the
    values of the controls; [onSubmit] is called with the parsed values, or
    the issues are shown on the fields. *)
Definition handleSubmit (props : FormProps) (st : FormState) : U unit :=
  match safeParse incidentFormSchema (JObj (state_fields st)) with
  | ParseSuccess data => onSubmit props data
  | ParseFailure errors => u_emit (UiFieldErrors errors)
  end.

End Form.

Section FormRuns.

Context {Srv : Type}.
Variable fetch : HttpRequest -> Srv -> FetchResult * Srv.

(** The request [onSubmit] sends. *)
Definition submit_request (props : FormProps) (data : FormValues)
  : HttpRequest :=
  mkHttpRequest (endpoint props) (method props)
    (JObj (submit_fields data (fp_organizationId props) (incident_type props))).

(** What follows the request in the log of a submission. *)
Definition after_fetch (props : FormProps) (r : FetchResult) : list UiEvent :=
  match r with
  | NetworkError message =>
      [UiConsoleError message; UiToast (error_toast message)]
  | Responded status statusText parsed =>
      if response_ok status
      then match parsed with
           | inr _ =>
               [UiToast (success_toast props);
                UiRouterPush "/dashboard/incidents"; UiRouterRefresh]
           | inl message =>
               [UiConsoleError message; UiToast (error_toast message)]
           end
      else [UiConsoleError statusText; UiToast (error_toast statusText)]
  end.

Lemma onSubmit_run props data c :
  onSubmit fetch props data c
  = (inl tt,
     mkClient false
       (ui_log c
        ++ [UiSetIsLoading true; UiFetch (submit_request props data)]
        ++ after_fetch props (fetch (submit_request props data) (server c)).1
        ++ [UiSetIsLoading false])
       (fetch (submit_request props data) (server c)).2).
Proof.
  unfold onSubmit, u_try_catch_finally, u_bind, u_fetch, setIsLoading, u_emit,
    u_throw, u_ret. cbn [isLoading ui_log server].
  fold (submit_request props data).
  destruct (fetch (submit_request props data) (server c))
    as [[message|status statusText parsed] s'];
    cbn [fst snd after_fetch isLoading ui_log server].
  - rewrite <- !app_assoc. reflexivity.
  - destruct (response_ok status); cbn [negb isLoading ui_log server].
    + destruct parsed as [message|j]; cbn [isLoading ui_log server];
        rewrite <- !app_assoc; reflexivity.
    + rewrite <- !app_assoc. reflexivity.
Qed.

Definition is_navigation (ev : UiEvent) : bool :=
  match ev with UiRouterPush _ | UiRouterRefresh => true | _ => false end.

Definition is_error_toast (ev : UiEvent) : bool :=
  match ev with UiToast t => toast_destructive t | _ => false end.

(** The events a submission added to the log. *)
Definition shown (c c' : Client (Srv:=Srv)) : list UiEvent :=
  drop (length (ui_log c)) (ui_log c').

Lemma onSubmit_fetches props data c :
  List.filter is_fetch (shown c (onSubmit fetch props data c).2)
  = [UiFetch (submit_request props data)].
Proof.
  rewrite onSubmit_run. unfold shown. cbn [snd ui_log].
  rewrite drop_app_length.
  destruct (fetch (submit_request props data) (server c)).1
    as [message|status statusText [message|j]]; cbn [after_fetch];
    try destruct (response_ok status); reflexivity.
Qed.

(** X5.  Whatever the server does, a submission ends without throwing and
    with the form no longer loading, and it sends exactly one request: to
    "/api/incidents" with POST when the form has no incident, to
    "/api/incidents/<id>" with PATCH when it has one, with the values, the
    organization and the type of the form (the type "incident" when the
    form was given none).  What the user sees is, in this order: loading
    set, the request, then either the success toast followed by the
    navigation to the list and the refresh, when the status is between 200
    and 299 and the body parses, or else the logged message followed by
    one destructive toast "Error" carrying it (the status text of a
    response that is not ok, the message of a failed request or of a body
    that does not parse) and no navigation; and last loading reset. *)
Theorem submission_outcome props data c :
  let request :=
    mkHttpRequest
      (match fp_incident props with
       | Some i => "/api/incidents/" +:+ p_id i
       | None => "/api/incidents"
       end)
      (match fp_incident props with
       | Some _ => HttpPatch
       | None => HttpPost
       end)
      (JObj [("title", JStr (f_title data));
             ("description", JStr (f_description data));
             ("status", JStr (status_name (f_status data)));
             ("impact", JStr (impact_name (f_impact data)));
             ("serviceIds", JArr (map JStr (f_serviceIds data)));
             ("organizationId", JStr (fp_organizationId props));
             ("type", JStr (type_name
                              (match fp_incidentType props with
                               | Some t => t
                               | None => incident
                               end)))]) in
  let failed message :=
    [UiConsoleError message; UiToast (mkToast "Error" message true)] in
  exists c',
    onSubmit fetch props data c = (inl tt, c')
    /\ isLoading c' = false
    /\ server c' = (fetch request (server c)).2
    /\ shown c c'
       = [UiSetIsLoading true; UiFetch request]
         ++ match (fetch request (server c)).1 with
            | NetworkError message => failed message
            | Responded status statusText parsed =>
                if Nat.leb 200 status && Nat.leb status 299
                then match parsed with
                     | inr _ =>
                         [UiToast
                            (match fp_incident props with
                             | Some _ =>
                                 mkToast "Incident updated"
                                   "Your incident has been updated successfully."
                                   false
                             | None =>
                                 mkToast "Incident created"
                                   "Your new incident has been created successfully."
                                   false
                             end);
                          UiRouterPush "/dashboard/incidents";
                          UiRouterRefresh]
                     | inl message => failed message
                     end
                else failed statusText
            end
         ++ [UiSetIsLoading false].
Proof.
  cbn zeta. eexists. split; [apply onSubmit_run|]. split; [done|].
  split; [reflexivity|].
  unfold shown. cbn [ui_log]. rewrite drop_app_length.
  change (mkHttpRequest _ _ _) with (submit_request props data).
  destruct (fetch (submit_request props data) (server c)).1
    as [message|status statusText [message|j]]; cbn [after_fetch];
    unfold response_ok; try destruct (_ && _); reflexivity.
Qed.

(** X6.  A request leaves the form only with values its schema accepted:
    when [handleSubmit] sends one, the title has between 1 and 100
    characters, the description between 10 and 1000, status and impact are
    listed literals, at least one service is selected, and the body of the
    request carries these very values; otherwise nothing is sent and the
    server is not touched. *)
Theorem handleSubmit_sends_valid_values props st c :
  let c' := (handleSubmit fetch props st c).2 in
  match safeParse incidentFormSchema (JObj (state_fields st)) with
  | ParseSuccess data =>
      List.filter is_fetch (shown c c') = [UiFetch (submit_request props data)]
      /\ f_title data = st_title st
      /\ f_description data = st_description st
      /\ status_name (f_status data) = st_status st
      /\ impact_name (f_impact data) = st_impact st
      /\ f_serviceIds data = st_serviceIds st
      /\ 1 <= String.length (st_title st) <= 100
      /\ 10 <= String.length (st_description st) <= 1000
      /\ st_serviceIds st <> []
  | ParseFailure errors =>
      errors <> []
      /\ shown c c' = [UiFieldErrors errors]
      /\ server c' = server c
  end.
Proof.
  unfold handleSubmit.
  destruct (safeParse incidentFormSchema (JObj (state_fields st)))
    as [data|errors] eqn:Hp; cbn zeta.
  - split; [apply onSubmit_fetches|].
    apply form_accepts_iff in Hp
      as (Ht & Htb & Hd & Hdb & (s1 & Hs1 & Hl1) & (s2 & Hs2 & Hl2)
          & Hids & Hne).
    unfold state_fields in *.
    cbn [get_prop String.eqb Ascii.eqb Bool.eqb] in *. simplify_eq.
    apply map_JStr_inj in Hids.
    unfold Rules.text_between in Htb, Hdb.
    rewrite andb_true_iff, !Nat.leb_le in Htb, Hdb.
    apply status_lookup_name in Hl1. apply impact_lookup_name in Hl2.
    repeat split; try done; try lia. congruence.
  - unfold u_emit, shown. cbn [snd ui_log server]. rewrite drop_app_length.
    split; [|done]. intros ->. by apply form_failure_has_issue in Hp.
Qed.

End FormRuns.

(** ** The answers of the route *)

Lemma route_failure_has_issue j :
  safeParse incidentSchema j <> ParseFailure [].
Proof.
  unfold safeParse. intros H.
  destruct (incidentSchema [] (Some j)) as [[|i e] [a|]] eqn:E;
    try discriminate.
  destruct j as [| | | | |fields]; try discriminate.
  assert (forall c, Rules.holds fields c = true) as Hall.
  { intros c. destruct (Rules.holds fields c) eqn:Hc; [done|].
    destruct (schema_reports fields c Hc) as (i & Hi & _).
    rewrite E in Hi. by apply elem_of_nil in Hi. }
  apply schema_accepts_iff in Hall as [data Hd]. congruence.
Qed.

(** The answers the route can give. *)
Inductive Answer : Response -> Prop :=
| AnswerUnauthorized : Answer unauthorized
| AnswerInvalid errors : errors <> [] -> Answer (invalid_data errors)
| AnswerNoOrganization : Answer organization_not_found
| AnswerNoServices : Answer services_not_found
| AnswerInternalError : Answer internal_error
| AnswerCreated h : Answer (json_response (IncidentBody (Some h)) 200).

Definition is_console (ev : Event) : bool :=
  match ev with EvConsoleError _ _ => true | _ => false end.

(** Not a call to [console.error]. *)
Definition silent (ev : Event) : Prop := is_console ev = false.

(** The place of a call among the calls of the handler. *)
Definition call_order (op : Op) : nat :=
  match op with
  | OpOrganizationFindFirst => 0
  | OpServiceCount => 1
  | OpIncidentCreate => 2
  | OpIncidentServiceCreateMany => 3
  | OpIncidentFindUnique => 4
  | OpCommit => 5
  | OpTrigger => 6
  end.

(** The body of the request passes the schema. *)
Definition well_formed (req : Request) : Prop :=
  exists j data,
    body req = Some j /\ safeParse incidentSchema j = ParseSuccess data.

(** What made the handler throw [e]: the body that does not parse, the
    first call that the surroundings reject, or the generated identity that
    is taken. *)
Definition thrown_by (env : Env) (req : Request) (w : World) (e : Error)
  : Prop :=
  authenticated req
  /\ match e with
     | SyntaxError => body req = None
     | Rejected op =>
         well_formed req
         /\ faults env op = true
         /\ (forall op', call_order op' < call_order op ->
               faults env op' = false)
     | UniqueConstraintViolation =>
         well_formed req
         /\ is_Some (incidents (db w) !! idgen env (idctr w))
         /\ (forall op', call_order op' <= call_order OpIncidentCreate ->
               faults env op' = false)
     end.

(** The log of a run against its answer: a 500 comes with one logged
    rejection, the last call of the run and the error that was thrown; any
    other answer with none. *)
Definition logged (env : Env) (req : Request) (w : World)
    (resp : Response) (evs : list Event) : Prop :=
  (resp_status resp = 500
   /\ exists pre e,
       evs = pre ++ [EvConsoleError "[INCIDENTS_POST]" e]
       /\ Forall silent pre
       /\ thrown_by env req w e)
  \/ (resp_status resp <> 500 /\ Forall silent evs).

Local Ltac all_silent := repeat (constructor; [reflexivity|]); constructor.
Local Ltac lists := rewrite <- ?app_assoc; reflexivity.

Lemma emitted_nothing w : emitted w w = [].
Proof. unfold emitted. apply drop_all. Qed.

(** The transaction logs nothing itself; what it throws is the rejection
    of its first call that rejects, or the violation of the identity. *)
Lemma run_transaction_silent env data w :
  exists out d n evs,
    db_transaction env (writer env data) w
    = (out, mkWorld d (trace w ++ evs) n)
    /\ Forall silent evs
    /\ match out with
       | Ok _ => writer_ok env w = true
       | Throw SyntaxError => False
       | Throw UniqueConstraintViolation =>
           faults env OpIncidentCreate = false
           /\ is_Some (incidents (db w) !! idgen env (idctr w))
       | Throw (Rejected op) =>
           faults env op = true
           /\ (forall op', 2 <= call_order op' < call_order op ->
                 faults env op' = false)
       end.
Proof.
  unfold writer, writer_ok. run_handler.
  destruct (faults env OpIncidentCreate) eqn:F1; cbn [db trace idctr].
  { eexists _, _, _, [_; _; _]. split; [lists|]. split; [all_silent|].
    split; [done|]. intros [] ?; cbn in *; lia. }
  destruct (incidents (db w) !! idgen env (idctr w)) eqn:Hid;
    cbn [db trace idctr].
  { eexists _, _, _, [_; _; _]. split; [lists|]. split; [all_silent|].
    split; [done|]. eauto. }
  destruct (faults env OpIncidentServiceCreateMany) eqn:F2;
    cbn [db trace idctr].
  { eexists _, _, _, [_; _; _; _]. split; [lists|]. split; [all_silent|].
    split; [done|]. intros [] ?; cbn in *; try lia; assumption. }
  destruct (faults env OpIncidentFindUnique) eqn:F3; cbn [db trace idctr].
  { eexists _, _, _, [_; _; _; _; _]. split; [lists|]. split; [all_silent|].
    split; [done|]. intros [] ?; cbn in *; try lia; assumption. }
  destruct (faults env OpCommit) eqn:F4; cbn [db trace idctr].
  { eexists _, _, _, [_; _; _; _; _]. split; [lists|]. split; [all_silent|].
    split; [done|]. intros [] ?; cbn in *; try lia; assumption. }
  eexists _, _, _, [_; _; _; _; _]. split; [lists|]. split; [all_silent|].
  by rewrite bool_decide_eq_true_2.
Qed.

Lemma POST_answer_log env req w :
  exists resp w',
    POST env req w = (Ok resp, w')
    /\ Answer resp
    /\ logged env req w resp (emitted w w').
Proof.
  destruct (decide (authenticated req)) as [Ha|Ha]; cycle 1.
  { eexists _, _. rewrite POST_unauthenticated by done.
    split; [done|]. split; [constructor|].
    right. rewrite emitted_nothing. split; [done|constructor]. }
  destruct (body req) as [j|] eqn:Hb; cycle 1.
  { eexists _, _. rewrite POST_unparseable by done.
    split; [done|]. split; [constructor|].
    left. rewrite (emitted_app w _ _ _ _ eq_refl). split; [done|].
    exists [], SyntaxError. split; [done|]. split; [constructor|].
    split; [exact Ha|exact Hb]. }
  destruct (safeParse incidentSchema j) as [data|errors] eqn:Hp; cycle 1.
  { eexists _, _. rewrite (POST_invalid env req w j errors) by done.
    split; [done|]. split.
    - constructor. intros ->. by apply route_failure_has_issue in Hp.
    - right. rewrite emitted_nothing. split; [done|constructor]. }
  assert (well_formed req) as Hwf by (exists j, data; done).
  pose proof Ha as Hauth.
  destruct Ha as [[u Hu] [o Ho]].
  rewrite (POST_valid env req w u o j data) by done.
  unfold try_catch, authorize_write_notify, on_error, bind.
  rewrite run_findFirst.
  destruct (faults env OpOrganizationFindFirst) eqn:F1.
  { unfold console_error, emit, ret, log. cbn [db trace idctr].
    eexists _, _. split; [reflexivity|]. split; [constructor|].
    left. split; [done|]. eexists [_], _.
    split; [apply emitted_app; lists|]. split; [all_silent|].
    split; [exact Hauth|]. split; [exact Hwf|]. split; [exact F1|].
    intros [] ?; cbn in *; lia. }
  destruct (match organizations (db w) !! i_organizationId data with
            | Some r => if String.eqb (clerkOrgId r) o then Some r else None
            | None => None
            end) as [orow|]; cycle 1.
  { unfold ret, log. eexists _, _. split; [reflexivity|].
    split; [constructor|]. right. split; [done|].
    rewrite (emitted_app w _ _ _ _ eq_refl). all_silent. }
  rewrite run_count.
  destruct (faults env OpServiceCount) eqn:F2.
  { unfold console_error, emit, ret, log. cbn [db trace idctr].
    eexists _, _. split; [reflexivity|]. split; [constructor|].
    left. split; [done|]. eexists [_; _], _.
    split; [apply emitted_app; lists|]. split; [all_silent|].
    split; [exact Hauth|]. split; [exact Hwf|]. split; [exact F2|].
    intros [] ?; cbn in *; try lia; assumption. }
  cbv beta iota.
  destruct (negb _).
  { unfold ret, log. cbn [db trace idctr]. eexists _, _.
    split; [reflexivity|]. split; [constructor|]. right. split; [done|].
    erewrite emitted_app; [|lists]. all_silent. }
  match goal with |- context [db_transaction env (writer env data) ?w'] =>
    destruct (run_transaction_silent env data w')
      as (out & d & n & evs & Heq & Hs & Hwhy);
    pose proof (run_transaction env data w') as Htx;
    rewrite Heq in Htx |- *
  end.
  unfold log in *. cbn [db trace idctr] in *.
  destruct out as [incident|e].
  - unfold pusher_trigger, bind, emit, guard.
    destruct (faults env OpTrigger) eqn:F7;
      unfold throw, ret, console_error, emit;
      cbn [db trace idctr]; eexists _, _; (split; [reflexivity|]).
    + split; [constructor|]. left. split; [done|].
      eexists ([_; _] ++ evs ++ [_]), _.
      split; [apply emitted_app; lists|]. split.
      { repeat (constructor; [reflexivity|]).
        apply Forall_app. split; [done|all_silent]. }
      split; [exact Hauth|]. split; [exact Hwf|]. split; [exact F7|].
      unfold writer_ok in Hwhy.
      repeat (apply andb_prop in Hwhy as [Hwhy ?]).
      repeat match goal with
             | H : negb _ = true |- _ => apply negb_true_iff in H
             end.
      intros [] ?; cbn in *; try lia; assumption.
    + split.
      * destruct (writer_ok env _); [|by destruct Htx as (? & ? & ? & _)].
        cbv zeta in Htx. injection Htx as -> _ _ _.
        match goal with
        | |- Answer (json_response (IncidentBody ?x) 200) =>
            destruct (hydrate_created env (db w) (idgen env (idctr w)) data)
              as (h & Hh & _);
            replace x with (Some h) by (symmetry; exact Hh)
        end.
        constructor.
      * right. split; [done|].
        erewrite (emitted_app w _ _ _ ([_; _] ++ evs ++ [_])); [|lists].
        repeat (constructor; [reflexivity|]).
        apply Forall_app. split; [done|all_silent].
  - unfold console_error, emit, ret. cbn [db trace idctr].
    eexists _, _. split; [reflexivity|]. split; [constructor|].
    left. split; [done|]. eexists ([_; _] ++ evs), _.
    split; [apply emitted_app; lists|]. split.
    { repeat (constructor; [reflexivity|]). done. }
    split; [exact Hauth|].
    destruct e as [| |op]; [done| |].
    + destruct Hwhy as [F3 Hid]. split; [exact Hwf|]. split; [exact Hid|].
      intros [] ?; cbn in *; try lia; assumption.
    + destruct Hwhy as [Fop Hbefore]. split; [exact Hwf|].
      split; [exact Fop|].
      intros op' Hlt.
      destruct (decide (2 <= call_order op')) as [Hge|Hge];
        [apply Hbefore; lia|].
      destruct op'; cbn in Hge; try lia; assumption.
Qed.

(** X7.  The route always answers, and with one of six responses: 401
    Unauthorized, 400 with a non-empty list of issues, 404 for the
    organization, 400 for the services, the generic 500, or 200 with an
    incident that is never null. *)
Theorem route_answers env req w :
  exists resp w', POST env req w = (Ok resp, w') /\ Answer resp.
Proof.
  destruct (POST_answer_log env req w) as (resp & w' & Hrun & Hans & _).
  eauto.
Qed.

(** X8.  The route logs exactly when it answers 500: such a run ends with
    one [console.error] call tagged "[INCIDENTS_POST]" that carries the
    rejection, and a run with any other answer logs nothing.  The error
    the call carries is the one the handler caught, whatever tag and error
    the last call of the run is found to have: a [SyntaxError] only for
    an authenticated request whose body does not parse; the rejection of
    the call [op] only for an authenticated request with a body the
    schema passes, when the surroundings reject [op] and no call the
    handler makes before it; the violation of the unique identity only
    when the store already has an incident under the generated identity
    and no call up to the creation of the incident is rejected. *)
Theorem internal_error_is_logged env req w resp w' :
  POST env req w = (Ok resp, w') ->
  (resp_status resp = 500
   <-> exists pre e,
        emitted w w' = pre ++ [EvConsoleError "[INCIDENTS_POST]" e])
  /\ (resp_status resp <> 500
      <-> List.filter is_console (emitted w w') = [])
  /\ length (List.filter is_console (emitted w w')) <= 1
  /\ (forall pre tag e,
        emitted w w' = pre ++ [EvConsoleError tag e] ->
        tag = "[INCIDENTS_POST]"
        /\ Forall (fun ev => is_console ev = false) pre
        /\ authenticated req
        /\ match e with
           | SyntaxError => body req = None
           | Rejected op =>
               (exists j data,
                   body req = Some j
                   /\ safeParse incidentSchema j = ParseSuccess data)
               /\ faults env op = true
               /\ (forall op', call_order op' < call_order op ->
                     faults env op' = false)
           | UniqueConstraintViolation =>
               (exists j data,
                   body req = Some j
                   /\ safeParse incidentSchema j = ParseSuccess data)
               /\ is_Some (incidents (db w) !! idgen env (idctr w))
               /\ (forall op', call_order op' <= call_order OpIncidentCreate ->
                     faults env op' = false)
           end).
Proof.
  intros Hrun.
  destruct (POST_answer_log env req w) as (resp' & w1 & Hrun' & _ & Hlog).
  rewrite Hrun in Hrun'. simplify_eq.
  assert (forall l, Forall silent l -> List.filter is_console l = []) as Hnone.
  { induction 1 as [|x l Hx _ IH]; [done|]. cbn. by rewrite Hx. }
  destruct Hlog as [(H500 & pre & e & Hev & Hs & Hwhy)|(Hne & Hs)].
  - rewrite Hev, List.filter_app, (Hnone pre Hs). cbn.
    split; [split; [eauto|done]|]. split; [split; [done|discriminate]|].
    split; [lia|].
    intros pre' tag' e' E. apply app_inj_tail in E as [<- E].
    injection E as <- <-. split; [done|]. split; [exact Hs|]. exact Hwhy.
  - rewrite (Hnone _ Hs). split; [|split; [done|split; [cbn; lia|]]].
    + split; [done|]. intros (pre & e & E). rewrite E in Hs.
      apply Forall_app in Hs as [_ Hs]. apply Forall_cons in Hs as [Hs _].
      discriminate Hs.
    + intros pre tag e E. rewrite E in Hs.
      apply Forall_app in Hs as [_ Hs]. apply Forall_cons in Hs as [Hs _].
      discriminate Hs.
Qed.

Lemma answer_status resp :
  Answer resp ->
  resp_status resp = 200
  \/ (resp_status resp <> 200 /\ Nat.leb 200 (resp_status resp)
                                && Nat.leb (resp_status resp) 299 = false).
Proof. intros []; cbn; auto. Qed.

(** ** The create form against the route *)

Section CreateFlow.

Variable env : Env.

(** The session of the browser, the status text the HTTP layer reports for
    a status, the serialization of a response body, and the routes of the
    application other than the create route. *)
Variables (userId orgId : option string).
Variable reason : nat -> string.
Variable encode : Body -> json.
Variable elsewhere : HttpRequest -> World -> FetchResult * World.

(** [fetch] against the application: a POST on "/api/incidents" runs the
    handler of [route.ts] on the value the body parses to.  The framework
    answers a rejection the handler lets through with a 500 that is not
    JSON. *)
Definition serve (r : HttpRequest) (w : World) : FetchResult * World :=
  match hr_method r with
  | HttpPost =>
      if String.eqb (hr_url r) "/api/incidents"
      then match POST env (mkRequest userId orgId (Some (hr_body r))) w with
           | (Ok resp, w') =>
               (Responded (resp_status resp) (reason (resp_status resp))
                          (inr (encode (resp_body resp))), w')
           | (Throw _, w') => (Responded 500 (reason 500) (inl ""), w')
           end
      else elsewhere r w
  | HttpPatch => elsewhere r w
  end.

(** X9.  A create form (one without an incident) submitted against the
    route: the request is handled by the create handler with the body the
    form built.  When the handler answers 200 the user sees the toast
    "Incident created" and is sent to the list, and the store then holds a
    new incident with the values, the organization and the type of the
    form and one association per selected service.  With any other answer
    the user sees one error toast carrying the status text and stays on
    the form; the store is then as it was, unless the transport rejected
    after the commit, in which case the incident is stored all the same. *)
Theorem create_form_end_to_end props data c :
  fp_incident props = None ->
  let intent :=
    submitted_intent data (fp_organizationId props) (incident_type props) in
  let w := server c in
  let id := idgen env (idctr w) in
  exists resp c',
    onSubmit serve props data c = (inl tt, c')
    /\ POST env (mkRequest userId orgId
                   (Some (JObj (submit_fields data (fp_organizationId props)
                                  (incident_type props))))) w
       = (Ok resp, server c')
    /\ isLoading c' = false
    /\ if Nat.eqb (resp_status resp) 200
       then shown c c'
            = [UiSetIsLoading true; UiFetch (submit_request props data);
               UiToast (mkToast "Incident created"
                          "Your new incident has been created successfully."
                          false);
               UiRouterPush "/dashboard/incidents"; UiRouterRefresh;
               UiSetIsLoading false]
            /\ incidents (db w) !! id = None
            /\ db (server c') = created env (db w) id intent
       else shown c c'
            = [UiSetIsLoading true; UiFetch (submit_request props data);
               UiConsoleError (reason (resp_status resp));
               UiToast (error_toast (reason (resp_status resp)));
               UiSetIsLoading false]
            /\ (db (server c') = db w
                \/ (faults env OpTrigger = true
                    /\ db (server c') = created env (db w) id intent)).
Proof.
  intros Hnew intent w id.
  set (req := mkRequest userId orgId
                (Some (JObj (submit_fields data (fp_organizationId props)
                               (incident_type props))))).
  destruct (POST_answer_log env req w) as (resp & w' & Hrun & Hans & _).
  assert (fetch_create :
            serve (submit_request props data) w
            = (Responded (resp_status resp) (reason (resp_status resp))
                         (inr (encode (resp_body resp))), w')).
  { unfold serve, submit_request, method, endpoint. rewrite Hnew.
    cbn [hr_method hr_url hr_body String.eqb Ascii.eqb Bool.eqb].
    fold req. by rewrite Hrun. }
  exists resp. eexists. split; [apply onSubmit_run|].
  fold w. rewrite fetch_create. cbn [fst snd server isLoading].
  split; [done|]. split; [done|].
  unfold shown. cbn [ui_log]. rewrite drop_app_length.
  cbn [after_fetch]. unfold response_ok.
  assert (stored :
            resp_status resp = 200 ->
            incidents (db w) !! id = None /\ db w' = created env (db w) id intent).
  { intros H200.
    destruct (POST_runs env req w)
      as [(resp' & evs & n & Hrun' & _ & Hne & _)|(o & data' & (Hc & Hrun'))];
      rewrite Hrun' in Hrun; simplify_eq; try done.
    destruct Hc as (_ & _ & (j & Hj & Hp) & _ & _ & _ & _ & Hok).
    injection Hj as <-. apply submit_fields_intent in Hp. subst data'.
    unfold writer_ok in Hok. rewrite !andb_true_iff in Hok.
    destruct Hok as ((((_ & Hfresh) & _) & _) & _).
    by apply bool_decide_eq_true in Hfresh. }
  destruct (answer_status resp Hans) as [H200|[Hne Hnot]].
  - rewrite H200. cbn [Nat.eqb Nat.leb andb app].
    unfold success_toast. rewrite Hnew. split; [done|]. by apply stored.
  - rewrite Hnot. rewrite (proj2 (Nat.eqb_neq _ _) Hne). cbn [app].
    split; [done|].
    destruct (POST_runs env req w)
      as [(resp' & evs & n & Hrun' & _)|(o & data' & (Hc & Hrun'))];
      rewrite Hrun' in Hrun; simplify_eq; try (by left).
    destruct (faults env OpTrigger) eqn:F; [|done]. right. split; [done|].
    destruct Hc as (_ & _ & (j & Hj & Hp) & _).
    injection Hj as <-. apply submit_fields_intent in Hp. by subst data'.
Qed.

End CreateFlow.

(** * The incident page, second part of
      [src/frontend/src/components/incidents/incident-form.tsx] *)

Inductive PageOp : Type := PageFindUnique | PageFindMany.

(** [redirect] does not return; a store call may reject. *)
Inductive PageResult : Type :=
| Redirected (url : string)
| Rendered (props : FormProps)
| PageRejected (op : PageOp).

(** [db.incident.findUnique({ where: { id, organization: { clerkOrgId } },
    include: { services: { select: { serviceId: true } } } })] *)
Definition page_findUnique (d : Db) (id clerk : string)
  : option (IncidentRow * list string) :=
  match incidents d !! id with
  | Some row =>
      if organization_found d (organizationId row) clerk
      then Some (row,
                 map serviceId
                     (filter (fun r => incidentId r = id) (incidentServices d)))
      else None
  | None => None
  end.

Section Page.

(** Which store calls reject, and the order the store sorts names in. *)
Variable page_faults : PageOp -> bool.
Variable name_le : string -> string -> bool.

Definition by_name (a b : string * ServiceRow) : Prop :=
  name_le (s_name a.2) (s_name b.2) = true.

#[local] Instance by_name_dec a b : Decision (by_name a b).
Proof. unfold by_name. apply _. Defined.

(** [db.service.findMany({ where: { organization: { clerkOrgId } },
    orderBy: { name: "asc" } })] *)
Definition page_findMany (d : Db) (clerk : string)
  : list (string * ServiceRow) :=
  merge_sort by_name
    (filter (fun kv => organization_found d (s_organizationId kv.2) clerk = true)
            (map_to_list (services d))).

Definition IncidentPage (userId orgId : option string) (incidentId : string)
    (d : Db) : PageResult :=
  match truthy userId, truthy orgId with
  | Some _, Some orgId =>
      if page_faults PageFindUnique then PageRejected PageFindUnique
      else
        match page_findUnique d incidentId orgId with
        | None => Redirected "/dashboard/incidents"
        | Some (row, serviceIds) =>
            if page_faults PageFindMany then PageRejected PageFindMany
            else
              Rendered
                (mkFormProps (organizationId row)
                   (map (fun kv => mkServiceItem kv.1 (s_name kv.2)
                                                 (s_description kv.2))
                        (page_findMany d orgId))
                   (Some (mkIncidentProp incidentId (title row)
                            (description row) (status_name (status row))
                            (impact_name (impact row)) serviceIds))
                   (Some (type row)))
        end
  | _, _ => Redirected "/sign-in"
  end.

Lemma page_findMany_spec d clerk kv :
  kv ∈ page_findMany d clerk
  <-> services d !! kv.1 = Some kv.2
      /\ organization_found d (s_organizationId kv.2) clerk = true.
Proof.
  unfold page_findMany. rewrite merge_sort_Permutation.
  rewrite list_elem_of_filter, elem_of_map_to_list'. tauto.
Qed.

(** X10.  The page shows a form only to a signed-in caller and only for an
    incident of the caller's tenant: the incident exists, its organization
    carries the caller's organization key, the form is given that
    organization and the incident's own values and services, and every
    service offered is a stored service of an organization with the
    caller's key.  A caller without a session is sent to "/sign-in". *)
Theorem page_shows_own_tenant_only userId orgId id d props :
  IncidentPage userId orgId id d = Rendered props ->
  exists clerk row,
    is_Some (truthy userId)
    /\ truthy orgId = Some clerk
    /\ incidents d !! id = Some row
    /\ organization_found d (organizationId row) clerk = true
    /\ fp_organizationId props = organizationId row
    /\ fp_incident props
       = Some (mkIncidentProp id (title row) (description row)
                 (status_name (status row)) (impact_name (impact row))
                 (map serviceId
                      (filter (fun r => incidentId r = id)
                              (incidentServices d))))
    /\ fp_incidentType props = Some (type row)
    /\ forall sv, sv ∈ fp_services props ->
         exists s, services d !! sv_id sv = Some s
                   /\ sv_name sv = s_name s
                   /\ organization_found d (s_organizationId s) clerk = true.
Proof.
  unfold IncidentPage, page_findUnique.
  destruct (truthy userId) as [u|]; [|discriminate].
  destruct (truthy orgId) as [clerk|]; [|discriminate].
  destruct (page_faults PageFindUnique); [discriminate|].
  destruct (incidents d !! id) as [row|]; [|discriminate].
  destruct (organization_found d (organizationId row) clerk) eqn:Hfound;
    [|discriminate].
  destruct (page_faults PageFindMany); [discriminate|].
  intros H. injection H as <-. exists clerk, row.
  cbn [fp_organizationId fp_incident fp_incidentType fp_services].
  repeat (split; [by eauto|]).
  intros sv Hsv. apply list_elem_of_fmap in Hsv as (kv & -> & Hkv).
  apply page_findMany_spec in Hkv as [Hs Ho]. cbn [sv_id sv_name]. eauto.
Qed.

(** X11.  To a signed-in caller, an incident of another tenant looks like
    one that does not exist: when the store calls go through, the page
    redirects to the list exactly when no incident has the identity or its
    organization does not carry the caller's key. *)
Theorem foreign_incident_looks_missing userId orgId id d u clerk :
  truthy userId = Some u ->
  truthy orgId = Some clerk ->
  page_faults PageFindUnique = false ->
  page_faults PageFindMany = false ->
  (IncidentPage userId orgId id d = Redirected "/dashboard/incidents"
   <-> match incidents d !! id with
       | Some row => organization_found d (organizationId row) clerk = false
       | None => True
       end)
  /\ forall url, IncidentPage userId orgId id d = Redirected url ->
                 url = "/dashboard/incidents".
Proof.
  intros Hu Ho F1 F2. unfold IncidentPage, page_findUnique.
  rewrite Hu, Ho, F1.
  destruct (incidents d !! id) as [row|]; [|split; [done|by intros ? [= <-]]].
  destruct (organization_found d (organizationId row) clerk);
    [|split; [done|by intros ? [= <-]]].
  rewrite F2. split; [split; discriminate|discriminate].
Qed.

Definition offered (kv : string * ServiceRow) : ServiceItem :=
  mkServiceItem kv.1 (s_name kv.2) (s_description kv.2).

Lemma page_findMany_keys d clerk : NoDup (page_findMany d clerk).*1.
Proof.
  unfold page_findMany. rewrite merge_sort_Permutation.
  apply NoDup_fmap_fst.
  - intros k s1 s2 H1 H2.
    apply list_elem_of_filter in H1 as [_ H1], H2 as [_ H2].
    apply elem_of_map_to_list in H1, H2. congruence.
  - apply NoDup_filter, NoDup_map_to_list.
Qed.

(** X12.  The form of a shown page offers every stored service of the
    caller's tenant, each of them once, and in the order of their names
    whenever the store's order on names is total. *)
Theorem page_offers_tenant_services userId orgId id d props clerk :
  IncidentPage userId orgId id d = Rendered props ->
  truthy orgId = Some clerk ->
  NoDup (map sv_id (fp_services props))
  /\ (forall sid s,
        services d !! sid = Some s ->
        organization_found d (s_organizationId s) clerk = true ->
        mkServiceItem sid (s_name s) (s_description s) ∈ fp_services props)
  /\ ((forall a b, name_le a b = true \/ name_le b a = true) ->
      Sorted (fun a b => name_le (sv_name a) (sv_name b) = true)
             (fp_services props)).
Proof.
  unfold IncidentPage. intros H Ho. rewrite Ho in H.
  destruct (truthy userId) as [u|]; [|discriminate].
  destruct (page_faults PageFindUnique); [discriminate|].
  destruct (page_findUnique d id clerk) as [[row ids]|]; [|discriminate].
  destruct (page_faults PageFindMany); [discriminate|].
  injection H as <-. cbn [fp_services]. fold offered. split; [|split].
  - rewrite map_map. cbn. apply page_findMany_keys.
  - intros sid s Hs Hfound. apply list_elem_of_fmap.
    exists (sid, s). split; [done|]. by apply page_findMany_spec.
  - intros Htotal. apply (Sorted_fmap offered by_name); [done|].
    apply Sorted_merge_sort. intros a b. apply Htotal.
Qed.

End Page.

(** ** From the route to the page and back to the form *)

Lemma or_else_empty s : or_else s "" = s.
Proof. unfold or_else. by destruct (String.eqb_spec s "") as [->|]. Qed.

Lemma or_else_status s d : or_else (status_name s) d = status_name s.
Proof. by destruct s. Qed.

Lemma or_else_impact i d : or_else (impact_name i) d = impact_name i.
Proof. by destruct i. Qed.

Lemma created_services env d id data :
  referential d ->
  incidents d !! id = None ->
  map serviceId
      (filter (fun r => incidentId r = id)
              (incidentServices (created env d id data)))
  = i_serviceIds data.
Proof.
  intros Hfk Hnew. unfold created. cbn [incidentServices].
  rewrite filter_app, filter_all_of, filter_none_of.
  - cbn [app]. rewrite map_map. cbn. apply map_id.
  - intros r Hr E. destruct (Hfk r Hr) as [row Hrow]. congruence.
Qed.

(** The state of a form that holds the values of an intent. *)
Definition intent_state (data : Intent) : FormState :=
  mkFormState (i_title data) (i_description data)
              (status_name (i_status data)) (impact_name (i_impact data))
              (i_serviceIds data).

Lemma intent_state_accepted j data :
  safeParse incidentSchema j = ParseSuccess data ->
  safeParse incidentFormSchema (JObj (state_fields (intent_state data)))
  = ParseSuccess (intent_values data).
Proof.
  intros H. pose proof (safeParse_serviceIds j data H) as [Hne _].
  destruct (safeParse_data j data H)
    as (fields & -> & Hall & Ht & Hd & _).
  pose proof (Hall Rules.CTitle) as Htb. pose proof (Hall Rules.CDescription) as Hdb.
  cbn [Rules.holds] in Htb, Hdb. rewrite Ht in Htb. rewrite Hd in Hdb.
  apply form_accepts_iff. unfold form_rules, state_fields, intent_state,
    intent_values.
  cbn [get_prop String.eqb Ascii.eqb Bool.eqb f_title f_description f_status
       f_impact f_serviceIds st_title st_description st_status st_impact
       st_serviceIds].
  repeat (split; [done|]). split.
  { eexists. split; [reflexivity|apply status_name_lookup]. }
  split; [|done].
  eexists. split; [reflexivity|apply impact_name_lookup].
Qed.

(** X13.  An incident the route has just created opens in the page of the
    same caller with a form that holds what was submitted: the form is
    given the organization and the type of the intent, its controls start
    with the title, description, status, impact and services of the
    intent, these values pass the form's schema as they stand, and
    submitting them goes to "/api/incidents/<id>" with PATCH. *)
Theorem created_incident_prefills_form env page_faults name_le req w resp w' :
  referential (db w) ->
  POST env req w = (Ok resp, w') ->
  resp_status resp = 200 ->
  page_faults PageFindUnique = false ->
  page_faults PageFindMany = false ->
  exists h data props,
    resp_body resp = IncidentBody (Some h)
    /\ (exists j, body req = Some j
                  /\ safeParse incidentSchema j = ParseSuccess data)
    /\ IncidentPage page_faults name_le (session_userId req)
         (session_orgId req) (h_id h) (db w') = Rendered props
    /\ fp_organizationId props = i_organizationId data
    /\ incident_type props = i_type data
    /\ defaultValues (fp_incident props) = intent_state data
    /\ safeParse incidentFormSchema
         (JObj (state_fields (defaultValues (fp_incident props))))
       = ParseSuccess (intent_values data)
    /\ submit_request props (intent_values data)
       = mkHttpRequest ("/api/incidents/" +:+ h_id h) HttpPatch
           (JObj (submit_fields (intent_values data) (i_organizationId data)
                    (i_type data))).
Proof.
  intros Hfk Hrun H200 F1 F2.
  destruct (POST_runs env req w)
    as [(resp' & evs & n & Hrun' & _ & Hne & _)|(o & data & (Hc & Hrun'))];
    rewrite Hrun' in Hrun; simplify_eq.
  destruct (faults env OpTrigger) eqn:F; [discriminate|].
  destruct Hc as ([[u Hu] _] & Ho & (j & Hb & Hp) & _ & Hfound & _ & _ & Hok).
  unfold writer_ok in Hok. rewrite !andb_true_iff in Hok.
  destruct Hok as ((((_ & Hnew) & _) & _) & _).
  apply bool_decide_eq_true in Hnew.
  set (id := idgen env (idctr w)) in *.
  pose proof (hydrate_created_joined env (db w) id data Hfk Hnew) as Hh.
  eexists _, data, _. unfold success. rewrite Hh. cbn [resp_body h_id db].
  split; [reflexivity|]. split; [eauto|]. cbn [h_id].
  unfold IncidentPage, page_findUnique. rewrite Hu, Ho, F1.
  assert (incidents (created env (db w) id data) !! id
          = Some (intent_row env data)) as ->.
  { unfold created. cbn [incidents]. apply lookup_insert_eq. }
  change (organization_found (created env (db w) id data)
            (organizationId (intent_row env data)) o)
    with (organization_found (db w) (i_organizationId data) o).
  rewrite Hfound, F2, (created_services env (db w) id data Hfk Hnew).
  split; [reflexivity|].
  cbn [fp_organizationId fp_incident fp_incidentType incident_type
       intent_row title description status impact type organizationId].
  unfold incident_type, submit_request, endpoint, method.
  cbn [fp_organizationId fp_incident fp_incidentType defaultValues p_id
       p_title p_description p_status p_impact p_services].
  rewrite !or_else_empty, or_else_status, or_else_impact.
  fold (intent_state data).
  split; [done|]. split; [done|]. split; [done|].
  split; [by apply (intent_state_accepted j)|done].
Qed.

(** ** What the route keeps true of the store *)

(** Every association joins a stored incident with a stored service of the
    incident's organization; every incident has an association; no
    association is stored twice; and every incident belongs to a stored
    organization and has a title of 1 to 100 and a description of 10 to
    1000 characters. *)
Definition stored_consistently (d : Db) : Prop :=
  (forall r, r ∈ incidentServices d ->
     exists row s,
       incidents d !! incidentId r = Some row
       /\ services d !! serviceId r = Some s
       /\ s_organizationId s = organizationId row)
  /\ (forall id row, incidents d !! id = Some row ->
        exists r, r ∈ incidentServices d /\ incidentId r = id)
  /\ NoDup (incidentServices d)
  /\ (forall id row, incidents d !! id = Some row ->
        is_Some (organizations d !! organizationId row)
        /\ 1 <= String.length (title row) <= 100
        /\ 10 <= String.length (description row) <= 1000).

Lemma intent_bounds j data :
  safeParse incidentSchema j = ParseSuccess data ->
  1 <= String.length (i_title data) <= 100
  /\ 10 <= String.length (i_description data) <= 1000.
Proof.
  intros H. destruct (safeParse_data j data H)
    as (fields & -> & Hall & Ht & Hd & _).
  pose proof (Hall Rules.CTitle) as Htb.
  pose proof (Hall Rules.CDescription) as Hdb.
  cbn [Rules.holds] in Htb, Hdb. rewrite Ht in Htb. rewrite Hd in Hdb.
  unfold Rules.text_between in Htb, Hdb.
  rewrite andb_true_iff, !Nat.leb_le in Htb, Hdb. lia.
Qed.

Lemma commits_facts env req w o data :
  commits env req w o data ->
  (exists j, body req = Some j /\ safeParse incidentSchema j = ParseSuccess data)
  /\ organization_found (db w) (i_organizationId data) o = true
  /\ NoDup (i_serviceIds data)
  /\ (forall id, id ∈ i_serviceIds data ->
                 owned (db w) (i_organizationId data) id)
  /\ incidents (db w) !! idgen env (idctr w) = None.
Proof.
  intros (_ & _ & Hb & _ & Hfound & _ & Hm & Hok).
  apply matched_eq_iff in Hm as [Hnd Hall].
  unfold writer_ok in Hok. rewrite !andb_true_iff in Hok.
  destruct Hok as ((((_ & Hnew) & _) & _) & _).
  apply bool_decide_eq_true in Hnew. done.
Qed.

Lemma created_consistent env d id o j data :
  stored_consistently d ->
  safeParse incidentSchema j = ParseSuccess data ->
  organization_found d (i_organizationId data) o = true ->
  NoDup (i_serviceIds data) ->
  (forall sid, sid ∈ i_serviceIds data -> owned d (i_organizationId data) sid) ->
  incidents d !! id = None ->
  stored_consistently (created env d id data).
Proof.
  intros (H1 & H2 & H3 & H4) Hp Hfound Hnd Hall Hnew.
  pose proof (safeParse_serviceIds j data Hp) as [Hne _].
  pose proof (intent_bounds j data Hp) as Hbounds.
  assert (forall r, r ∈ incidentServices d -> incidentId r <> id) as Hold.
  { intros r Hr E. destruct (H1 r Hr) as (row & _ & Hrow & _). congruence. }
  unfold stored_consistently, created.
  cbn [incidents incidentServices services organizations].
  split; [|split; [|split]].
  - intros r Hr. apply elem_of_app in Hr as [Hr|Hr].
    + destruct (H1 r Hr) as (row & s & Hrow & Hs & Ho).
      exists row, s. rewrite lookup_insert_ne by (by apply not_eq_sym, Hold).
      done.
    + apply list_elem_of_fmap in Hr as (sid & -> & Hsid).
      destruct (Hall sid Hsid) as (s & Hs & Ho).
      exists (intent_row env data), s. cbn [incidentId serviceId].
      rewrite lookup_insert_eq. done.
  - intros id' row. destruct (decide (id = id')) as [<-|Hne'].
    + intros _. destruct (i_serviceIds data) as [|sid ids] eqn:E; [done|].
      exists (mkIncidentService id sid). split; [|done].
      apply elem_of_app. right. apply list_elem_of_here.
    + rewrite lookup_insert_ne by done. intros Hrow.
      destruct (H2 id' row Hrow) as (r & Hr & Hid).
      exists r. split; [|done]. apply elem_of_app. by left.
  - apply NoDup_app. split; [done|]. split.
    + intros r Hr Hr'. apply list_elem_of_fmap in Hr' as (sid & -> & _).
      by apply (Hold _ Hr).
    + apply NoDup_fmap_2_strong; [|done]. intros x y _ _ E. by injection E.
  - intros id' row. destruct (decide (id = id')) as [<-|Hne'].
    + rewrite lookup_insert_eq. intros E. injection E as <-.
      cbn [intent_row organizationId title description].
      split; [|done]. unfold organization_found in Hfound.
      destruct (organizations d !! i_organizationId data); [eauto|done].
    + rewrite lookup_insert_ne by done. apply H4.
Qed.

(** X14.  Every run of the route keeps the store consistent: whatever the
    request and whichever calls reject, associations still join stored
    incidents with stored services of the incident's own organization,
    every incident still has at least one association, no association is
    stored twice, and every incident belongs to a stored organization and
    respects the bounds on title and description. *)
Theorem route_keeps_store_consistent env req w out w' :
  stored_consistently (db w) ->
  POST env req w = (out, w') ->
  stored_consistently (db w').
Proof.
  intros Hinv Hrun.
  destruct (POST_runs env req w)
    as [(resp & evs & n & Hrun' & _)|(o & data & (Hc & Hrun'))];
    rewrite Hrun' in Hrun; simplify_eq; [done|].
  destruct (commits_facts env req w o data Hc)
    as ((j & _ & Hp) & Hfound & Hnd & Hall & Hnew).
  cbn [db]. by apply (created_consistent env (db w) _ o j).
Qed.

Lemma sample_db_consistent : stored_consistently sample_db.
Proof.
  unfold stored_consistently, sample_db. cbn [incidents incidentServices].
  split; [|split; [|split]].
  - intros r Hr. by apply elem_of_nil in Hr.
  - intros id row Hrow. by rewrite lookup_empty in Hrow.
  - constructor.
  - intros id row Hrow. by rewrite lookup_empty in Hrow.
Qed.

Lemma route_keeps_store_consistent_witness :
  stored_consistently
    (db (POST (sample_env no_faults)
              (caller (Some (sample_body [cuid1; cuid2]))) sample_world).2).
Proof.
  apply (route_keeps_store_consistent (sample_env no_faults)
           (caller (Some (sample_body [cuid1; cuid2]))) sample_world
           (POST (sample_env no_faults)
                 (caller (Some (sample_body [cuid1; cuid2]))) sample_world).1).
  - apply sample_db_consistent.
  - apply surjective_pairing.
Defined.


(** ** The sample tenant, once more *)

Definition no_page_faults : PageOp -> bool := fun _ => false.

(** The sample store after the sample incident was created. *)
Definition stored_db : Db :=
  created (sample_env no_faults) sample_db "ckincident0000"
          (sample_intent [cuid1; cuid2]).

Definition sample_props : FormProps :=
  mkFormProps cuidO
    [mkServiceItem cuid1 "API" None;
     mkServiceItem cuid2 "Website" (Some "Public site")]
    (Some (mkIncidentProp "ckincident0000" "API down"
             "Requests to the API time out." "investigating" "minor"
             [cuid1; cuid2]))
    (Some incident).

Example sample_page_renders :
  IncidentPage no_page_faults String.leb (Some "user_1") (Some "org_1")
               "ckincident0000" stored_db
  = Rendered sample_props.
Proof. vm_compute. reflexivity. Qed.

Definition sample_values : FormValues :=
  mkFormValues "API down" "Requests to the API time out." investigating minor
               [cuid1; cuid2].

Definition offline (r : HttpRequest) (w : World) : FetchResult * World :=
  (NetworkError "Failed to fetch", w).

Lemma create_form_end_to_end_witness :
  exists c',
    onSubmit (serve (sample_env no_faults) (Some "user_1") (Some "org_1")
                    (fun _ => "") (fun _ => JNull) offline)
             (mkFormProps cuidO [] None None) sample_values
             (mkClient false [] sample_world)
    = (inl tt, c')
    /\ isLoading c' = false
    /\ db (server c') = stored_db.
Proof.
  destruct (create_form_end_to_end (sample_env no_faults) (Some "user_1")
              (Some "org_1") (fun _ => "") (fun _ => JNull) offline
              (mkFormProps cuidO [] None None) sample_values
              (mkClient false [] sample_world) eq_refl)
    as (resp & c' & Hsub & Hrun & Hload & Hout).
  exists c'. split; [exact Hsub|]. split; [exact Hload|].
  vm_compute in Hrun. injection Hrun as <- Hw.
  cbn [resp_status Nat.eqb] in Hout. by destruct Hout as (_ & _ & ->).
Defined.

Lemma page_shows_own_tenant_only_witness :
  exists clerk row,
    truthy (Some "org_1") = Some clerk
    /\ incidents stored_db !! "ckincident0000" = Some row
    /\ organization_found stored_db (organizationId row) clerk = true
    /\ fp_organizationId sample_props = organizationId row.
Proof.
  destruct (page_shows_own_tenant_only no_page_faults String.leb
              (Some "user_1") (Some "org_1") "ckincident0000" stored_db
              sample_props)
    as (clerk & row & _ & H1 & H2 & H3 & H4 & _).
  - vm_compute. reflexivity.
  - exists clerk, row. done.
Defined.

Lemma foreign_incident_looks_missing_witness :
  IncidentPage no_page_faults String.leb (Some "user_2") (Some "org_2")
               "ckincident0000" stored_db
  = Redirected "/dashboard/incidents".
Proof.
  apply (foreign_incident_looks_missing no_page_faults String.leb
           (Some "user_2") (Some "org_2") "ckincident0000" stored_db
           "user_2" "org_2"); reflexivity.
Defined.

Lemma page_offers_tenant_services_witness :
  NoDup (map sv_id (fp_services sample_props))
  /\ (forall sid s,
        services stored_db !! sid = Some s ->
        organization_found stored_db (s_organizationId s) "org_1" = true ->
        mkServiceItem sid (s_name s) (s_description s)
        ∈ fp_services sample_props)
  /\ ((forall a b, String.leb a b = true \/ String.leb b a = true) ->
      Sorted (fun a b => String.leb (sv_name a) (sv_name b) = true)
             (fp_services sample_props)).
Proof.
  apply (page_offers_tenant_services no_page_faults String.leb
           (Some "user_1") (Some "org_1") "ckincident0000" stored_db
           sample_props "org_1").
  - vm_compute. reflexivity.
  - reflexivity.
Defined.

Lemma created_incident_prefills_form_witness :
  let run :=
    POST (sample_env no_faults) (caller (Some (sample_body [cuid1; cuid2])))
         sample_world in
  exists h data props,
    IncidentPage no_page_faults String.leb (Some "user_1") (Some "org_1")
                 (h_id h) (db run.2) = Rendered props
    /\ defaultValues (fp_incident props) = intent_state data
    /\ safeParse incidentFormSchema
         (JObj (state_fields (defaultValues (fp_incident props))))
       = ParseSuccess (intent_values data).
Proof.
  intros run.
  destruct (created_incident_prefills_form (sample_env no_faults)
              no_page_faults String.leb
              (caller (Some (sample_body [cuid1; cuid2]))) sample_world
              (json_response
                 (IncidentBody (hydrate stored_db "ckincident0000")) 200)
              run.2)
    as (h & data & props & _ & _ & Hpage & _ & _ & Hdef & Hok & _).
  - intros r Hr. by apply elem_of_nil in Hr.
  - vm_compute. reflexivity.
  - reflexivity.
  - reflexivity.
  - reflexivity.
  - exists h, data, props.
    split; [exact Hpage|]. split; [exact Hdef|exact Hok].
Defined.

Lemma internal_error_is_logged_witness :
  let env := sample_env (only OpServiceCount) in
  let run := POST env (caller (Some (sample_body [cuid1; cuid2]))) sample_world in
  (exists pre e,
      emitted sample_world run.2
      = pre ++ [EvConsoleError "[INCIDENTS_POST]" e])
  /\ faults env OpServiceCount = true
  /\ faults env OpOrganizationFindFirst = false.
Proof.
  intros env run.
  destruct (internal_error_is_logged env
              (caller (Some (sample_body [cuid1; cuid2]))) sample_world
              internal_error run.2)
    as (H500 & _ & _ & Hwhy).
  - vm_compute. reflexivity.
  - split; [apply H500; reflexivity|].
    destruct (Hwhy [EvOrganizationFindFirst cuidO "org_1";
                    EvServiceCount [cuid1; cuid2] cuidO]
                "[INCIDENTS_POST]" (Rejected OpServiceCount))
      as (_ & _ & _ & _ & Hfault & Hbefore).
    + vm_compute. reflexivity.
    + split; [exact Hfault|]. apply Hbefore. cbn. lia.
Defined.

